(** * gh-pinned-repos: a shallow embedding of [src/index.ts]

    The development follows the source file top to bottom:

    - [JS]        the ECMAScript built-ins the program calls
                  ([String.prototype.trim], [toLowerCase], [endsWith],
                  [slice], [parseInt], [parseFloat], [Math.round], [||]);
    - [parseNumericValue]   (index.ts, lines 108-116);
    - [LRU]       the cache object created at lines 18-20;
    - [Scraper]   [fetchWithTimeout], [loadHTML], [getRepoWebsite],
                  [getPinnedRepos] (lines 22-106) over an abstract cheerio;
    - [Server]    [handler] (lines 118-183) and the event loop that settles
                  the detached refresh promises;
    - [Loop]      the same process with each call of [handler] cut at the
                  [await] of line 169 ([handler_begin], [handler_resume]),
                  so that other requests can arrive while a fetch is
                  awaited.

    Conventions.
    - A JavaScript number is an IEEE 754 binary64 value; it is represented
      by [spec_float] of the standard library at precision 53 and maximal
      exponent 1024, so that rounding, infinities, NaN and the two zeros
      are the ones the engine computes with.
    - A JavaScript string is a sequence of UTF-16 code units; the embedding
      covers the strings whose code units are below 256 (one [ascii] per
      code unit, i.e. the Latin-1 range), on which [trim] and
      [toLowerCase] are closed.
    - An [async] function is a function into the exception monad [Exc]:
      a rejected promise is [Throw], a fulfilled one is [Return].  The
      outcome of the network is an explicit argument. *)

From Stdlib Require Import ZArith NArith List String Ascii Bool Lia.
From Stdlib Require Import SpecFloat DecimalString.
Import ListNotations.

Set Implicit Arguments.

(* ================================================================== *)
(** * ECMAScript built-ins *)
(* ================================================================== *)

Module JS.

Open Scope Z_scope.

(** ** Numbers *)

Definition prec : Z := 53.
Definition emax : Z := 1024.

Definition number : Type := spec_float.

Definition NaN : number := S754_nan.

(** The Number value for a mathematical integer (ECMA-262, 6.1.6.1):
    round to nearest, ties to even, overflow to an infinity. *)
Definition of_Z (z : Z) : number := binary_normalize prec emax z 0 false.

(** [x * y] on numbers. *)
Definition mul (x y : number) : number := SFmul prec emax x y.

(** The Number value for [+-m * 10^e10], the mathematical value of a
    decimal literal with digit string [m]; a zero keeps the sign of the
    literal.  ECMA-262 lets an engine replace the digits after the 20th
    significant one; the value here is the correctly rounded one, which
    is what V8 computes.  The quotient of the two integers is rounded
    once, by [SFdiv]. *)
Definition of_decimal (neg : bool) (m : N) (e10 : Z) : number :=
  match m with
  | N0 => S754_zero neg
  | Npos p =>
      if 0 <=? e10
      then binary_normalize prec emax
             (cond_Zopp neg (Z.pos p * 10 ^ e10)) 0 false
      else SFdiv prec emax (S754_finite neg p 0)
                           (S754_finite false (Z.to_pos (10 ^ (- e10))) 0)
  end.

(** [Math.round]: NaN, the infinities and the zeros are returned as they
    are; otherwise floor(x + 1/2), and a zero result keeps the sign of x. *)
Definition Math_round (x : number) : number :=
  match x with
  | S754_finite s m e =>
      if 0 <=? e then x
      else
        let k := - e in
        let n := cond_Zopp s (Z.pos m) in
        let r := Z.shiftr (2 * n + 2 ^ k) (k + 1) in
        if r =? 0 then S754_zero s else of_Z r
  | _ => x
  end.

(** [ToBoolean] on numbers: NaN, +0 and -0 are falsy. *)
Definition ToBoolean (x : number) : bool :=
  match x with
  | S754_nan | S754_zero _ => false
  | _ => true
  end.

(** [x || y] on numbers. *)
Definition lor (x y : number) : number := if ToBoolean x then x else y.

(** The mathematical integer a number denotes, when it denotes one. *)
Definition to_Z (x : number) : option Z :=
  match x with
  | S754_zero _ => Some 0
  | S754_finite s m e =>
      if 0 <=? e then Some (cond_Zopp s (Z.pos m * 2 ^ e))
      else if Z.pos m mod 2 ^ (- e) =? 0
           then Some (cond_Zopp s (Z.pos m / 2 ^ (- e)))
           else None
  | _ => None
  end.

Definition is_nan (x : number) : bool :=
  match x with S754_nan => true | _ => false end.

Definition is_infinite (x : number) : bool :=
  match x with S754_infinity _ => true | _ => false end.

(** Sign bit of a number that is not NaN. *)
Definition is_negative (x : number) : bool :=
  match x with
  | S754_zero s | S754_infinity s | S754_finite s _ _ => s
  | S754_nan => false
  end.

(** ** Strings *)

Definition code (c : ascii) : N := N_of_ascii c.

(** WhiteSpace and LineTerminator code units below 256:
    TAB, LF, VT, FF, CR, SP and NBSP. *)
Definition isWhiteSpace (c : ascii) : bool :=
  let n := code c in
  (((9 <=? n) && (n <=? 13)) || (n =? 32) || (n =? 160))%N.

Fixpoint trimStart_list (l : list ascii) : list ascii :=
  match l with
  | c :: l' => if isWhiteSpace c then trimStart_list l' else l
  | [] => []
  end.

Definition trimEnd_list (l : list ascii) : list ascii :=
  rev (trimStart_list (rev l)).

Definition trim_list (l : list ascii) : list ascii :=
  trimEnd_list (trimStart_list l).

Definition trim (s : string) : string :=
  string_of_list_ascii (trim_list (list_ascii_of_string s)).

(** Lower-case mapping of one code unit below 256: A-Z, and the capital
    letters U+00C0-U+00DE except the multiplication sign U+00D7. *)
Definition toLowerCase_char (c : ascii) : ascii :=
  let n := code c in
  if (((65 <=? n) && (n <=? 90)) ||
      ((192 <=? n) && (n <=? 222) && negb (n =? 215)))%N
  then ascii_of_N (n + 32)
  else c.

Definition toLowerCase (s : string) : string :=
  string_of_list_ascii (map toLowerCase_char (list_ascii_of_string s)).

(** [s.endsWith(c)] for a one-character search string. *)
Definition endsWith (s : string) (c : ascii) : bool :=
  match rev (list_ascii_of_string s) with
  | x :: _ => Ascii.eqb x c
  | [] => false
  end.

(** [s.slice(0, -1)]: everything but the last code unit. *)
Definition slice_0_m1 (s : string) : string :=
  string_of_list_ascii (removelast (list_ascii_of_string s)).

(** ** Digits *)

(** Value of a code unit as a digit: 0-9, then a-z and A-Z for 10-35. *)
Definition digit_value (c : ascii) : option N :=
  let n := code c in
  if ((48 <=? n) && (n <=? 57))%N then Some (n - 48)%N
  else if ((97 <=? n) && (n <=? 122))%N then Some (n - 87)%N
  else if ((65 <=? n) && (n <=? 90))%N then Some (n - 55)%N
  else None.

(** Is [c] a digit of radix [R]? *)
Definition is_digit (R : N) (c : ascii) : bool :=
  match digit_value c with
  | Some d => (d <? R)%N
  | None => false
  end.

(** Longest prefix of radix-[R] digits, and the rest. *)
Fixpoint span_digits (R : N) (l : list ascii) : list ascii * list ascii :=
  match l with
  | c :: l' =>
      if is_digit R c
      then let (ds, rest) := span_digits R l' in (c :: ds, rest)
      else ([], l)
  | [] => ([], [])
  end.

(** The integer a digit string denotes in radix [R], read left to right. *)
Definition digits_value (R : N) (ds : list ascii) : N :=
  fold_left
    (fun acc c => (acc * R + match digit_value c with
                             | Some d => d
                             | None => 0
                             end)%N)
    ds 0%N.

(** ** parseInt and parseFloat *)

Definition ToInt32 (z : Z) : Z := (z + 2 ^ 31) mod 2 ^ 32 - 2 ^ 31.

(** Drops one leading sign character. *)
Definition strip_sign (l : list ascii) : list ascii :=
  match l with
  | c :: r => if (Ascii.eqb c "+" || Ascii.eqb c "-")%bool then r else l
  | [] => []
  end.

Definition starts_with_minus (l : list ascii) : bool :=
  match l with
  | c :: _ => Ascii.eqb c "-"
  | [] => false
  end.

(** Drops a leading "0x" or "0X"; tells whether it did. *)
Definition strip_hex_prefix (l : list ascii) : option (list ascii) :=
  match l with
  | z :: x :: r =>
      if (Ascii.eqb z "0" && (Ascii.eqb x "x" || Ascii.eqb x "X"))%bool
      then Some r else None
  | _ => None
  end.

(** [parseInt(string, radix)], ECMA-262 19.2.5.  The digits are read up to
    the first code unit that is not a digit of the radix; an empty digit
    run gives NaN. *)
Definition parseInt (s : string) (radix : Z) : number :=
  let S0 := trimStart_list (list_ascii_of_string s) in
  let neg := starts_with_minus S0 in
  let S1 := strip_sign S0 in
  let R := ToInt32 radix in
  if ((R =? 0) || ((2 <=? R) && (R <=? 36)))%bool then
    let stripPrefix := ((R =? 0) || (R =? 16))%bool in
    let R1 := if R =? 0 then 10 else R in
    let '(R2, S2) :=
      match (if stripPrefix then strip_hex_prefix S1 else None) with
      | Some r => (16, r)
      | None => (R1, S1)
      end in
    let '(ds, _) := span_digits (Z.to_N R2) S2 in
    match ds with
    | [] => NaN
    | _ =>
        let mathInt := digits_value (Z.to_N R2) ds in
        match mathInt with
        | N0 => S754_zero neg
        | Npos p => of_Z (cond_Zopp neg (Z.pos p))
        end
    end
  else NaN.

Fixpoint is_prefix (p l : list ascii) : bool :=
  match p, l with
  | [], _ => true
  | a :: p', b :: l' => (Ascii.eqb a b && is_prefix p' l')%bool
  | _ :: _, [] => false
  end.

(** Value of the ExponentPart at the head of [l]; 0 when there is none
    (an exponent indicator that no digit follows is not part of the
    literal). *)
Definition exponent_part (l : list ascii) : Z :=
  match l with
  | c :: r =>
      if (Ascii.eqb c "e" || Ascii.eqb c "E")%bool then
        let '(ds, _) := span_digits 10 (strip_sign r) in
        match ds with
        | [] => 0
        | _ => cond_Zopp (starts_with_minus r) (Z.of_N (digits_value 10 ds))
        end
      else 0
  | [] => 0
  end.

(** [parseFloat(string)], ECMA-262 19.2.4: the value of the longest
    prefix of the left-trimmed string that is a StrDecimalLiteral, NaN
    when no prefix is one. *)
Definition parseFloat (s : string) : number :=
  let t := trimStart_list (list_ascii_of_string s) in
  let neg := starts_with_minus t in
  let u := strip_sign t in
  if is_prefix (list_ascii_of_string "Infinity") u then S754_infinity neg
  else
    let '(ip, r1) := span_digits 10 u in
    let '(fp, r2) :=
      match r1 with
      | c :: r => if Ascii.eqb c "." then span_digits 10 r else ([], r1)
      | [] => ([], r1)
      end in
    match (ip ++ fp)%list with
    | [] => NaN
    | ds =>
        of_decimal neg (digits_value 10 ds)
                   (exponent_part r2 - Z.of_nat (List.length fp))
    end.

End JS.

(* ================================================================== *)
(** * The numeric normalizer (index.ts, lines 108-116) *)
(* ================================================================== *)

Definition parseNumericValue (value : string) : JS.number :=
  if String.eqb value EmptyString then JS.of_Z 0
  else
    let normalized := JS.trim (JS.toLowerCase value) in
    if JS.endsWith normalized "k"
    then JS.Math_round
           (JS.mul (JS.parseFloat (JS.slice_0_m1 normalized)) (JS.of_Z 1000))
    else JS.lor (JS.parseInt normalized 10) (JS.of_Z 0).

(* ================================================================== *)
(** * Promises as an exception monad *)
(* ================================================================== *)

(** A JavaScript [Error] with its [message]. *)
Record Error : Type := MkError { message : string }.

(** The settled state of a promise: fulfilled with a value or rejected
    with an error. *)
Inductive Exc (A : Type) : Type :=
| Return (a : A)
| Throw (e : Error).

Arguments Return {A} a.
Arguments Throw {A} e.

Definition bind {A B : Type} (m : Exc A) (k : A -> Exc B) : Exc B :=
  match m with
  | Return a => k a
  | Throw e => Throw e
  end.

(** [try { m } catch (error) { h error }] *)
Definition try_catch {A : Type} (m : Exc A) (h : Error -> Exc A) : Exc A :=
  match m with
  | Return a => Return a
  | Throw e => h e
  end.

Declare Scope exc_scope.
Delimit Scope exc_scope with exc.
Notation "x <- m ;; k" := (bind m (fun x => k))
  (at level 61, m at next level, right associativity) : exc_scope.

(** [Promise.all] over promises that are already settled: the list of
    the values, or a rejection when one of them is rejected. *)
Fixpoint Promise_all {A : Type} (ps : list (Exc A)) : Exc (list A) :=
  match ps with
  | [] => Return []
  | p :: ps' =>
      match p with
      | Return a =>
          match Promise_all ps' with
          | Return l => Return (a :: l)
          | Throw e => Throw e
          end
      | Throw e => Throw e
      end
  end.

(* ================================================================== *)
(** * The cache object (index.ts, lines 18-20) *)
(* ================================================================== *)

Module LRU.

Section Cache.

Variable V : Type.

(** Modelled from the spec: the class [LRU] that index.ts imports from
    the package quick-lru, whose code is not among the sources.  The
    spec describes it as a capacity-bounded least-recently-used mapping:
    "capacity-bounded cache policy removing the entry least recently
    accessed when a new entry would exceed capacity".  The entries are
    kept most recently used first. *)
Record t : Type := mk { maxSize : nat; entries : list (string * V) }.

(** Modelled from the spec: [new LRU({maxSize: n})], a cache of the
    configured capacity that holds nothing yet. *)
Definition empty (n : nat) : t := {| maxSize := n; entries := [] |}.

Fixpoint lookup (k : string) (l : list (string * V)) : option V :=
  match l with
  | [] => None
  | (k', v) :: l' => if String.eqb k k' then Some v else lookup k l'
  end.

Fixpoint remove (k : string) (l : list (string * V)) : list (string * V) :=
  match l with
  | [] => []
  | (k', v) :: l' =>
      if String.eqb k k' then remove k l' else (k', v) :: remove k l'
  end.



(** Modelled from the spec: [cache.has(key)], whether the mapping has an
    entry for the key. *)
Definition has (c : t) (k : string) : bool :=
  match lookup k (entries c) with Some _ => true | None => false end.

(** Modelled from the spec: [cache.get(key)], the value of the entry, and
    the cache in which that entry has become the most recently used
    one. *)
Definition get (c : t) (k : string) : option V * t :=
  match lookup k (entries c) with
  | Some v =>
      (Some v, {| maxSize := maxSize c;
                  entries := (k, v) :: remove k (entries c) |})
  | None => (None, c)
  end.

(** Modelled from the spec: [cache.set(key, value)].  The entry becomes
    the most recently used one; what exceeds the capacity is dropped from
    the least recently used end. *)
Definition set (c : t) (k : string) (v : V) : t :=
  {| maxSize := maxSize c;
     entries := firstn (maxSize c) ((k, v) :: remove k (entries c)) |}.


End Cache.

End LRU.

(* ================================================================== *)
(** * The extractor (index.ts, lines 5-106) *)
(* ================================================================== *)

Open Scope string_scope.

(** The output record (lines 5-16); an optional field is an [option]. *)
Record PinnedRepo : Type := mkPinnedRepo {
  owner : string;
  repo : string;
  link : string;
  description : option string;
  image : string;
  website : option string;
  language : option string;
  languageColor : option string;
  stars : JS.number;
  forks : JS.number
}.

(** What [fetch] resolves to: the [ok] flag, the status code and the
    outcome of [response.text()]. *)
Record Response : Type := mkResponse {
  ok : bool;
  status : nat;
  text : Exc string
}.

(** The network as one call of the program sees it: for each URL, what
    [fetch(url, {signal, headers})] settles to.  A network failure and the
    abort fired by the 5000 ms timer are both a rejection. *)
Definition Network : Type := string -> Exc Response.

(** The part of the cheerio API the program uses.  [Doc] is the value
    [cheerio.load] returns, [Item] an element of it; a selector is the
    string the source passes.  The source's variable [$] is written
    [dollar]. *)
Class Cheerio : Type := {
  Doc : Type;
  Item : Type;
  (** [cheerio.load(html)] *)
  load : string -> Exc Doc;
  (** [$(selector).toArray()] *)
  toArray : Doc -> string -> list Item;
  (** [$(item).find(selector).text()] *)
  find_text : Doc -> Item -> string -> string;
  (** [$(item).find(selector).next().text()] *)
  find_next_text : Doc -> Item -> string -> string;
  (** [$(item).find(selector).css(property)] *)
  find_css : Doc -> Item -> string -> string -> option string;
  (** [$(selector).first().attr(name)] *)
  first_attr : Doc -> string -> string -> option string
}.

(** The double quote, for the selectors that contain one. *)
Definition dq : string := String (ascii_of_nat 34) EmptyString.

(** The selectors of lines 55-77 and 100. *)
Definition pinned_selector : string := ".js-pinned-items-reorder-list > li".
Definition repo_selector : string := "[class*=" ++ dq ++ "repo" ++ dq ++ "]".
Definition description_selector : string := ".pinned-item-desc".
Definition language_selector : string :=
  "[class*=" ++ dq ++ "language-color" ++ dq ++ "]".
Definition stargazers_selector : string :=
  "a[href*=" ++ dq ++ "/stargazers" ++ dq ++ "]".
Definition forks_selector : string :=
  "a[href*=" ++ dq ++ "/forks" ++ dq ++ "]".
Definition website_selector : string :=
  "[class*=" ++ dq ++ "BorderGrid-cell" ++ dq ++ "] a[href^="
  ++ dq ++ "https" ++ dq ++ "]".

(** [x || undefined] on strings: the empty string is falsy. *)
Definition or_undefined (s : string) : option string :=
  if String.eqb s EmptyString then None else Some s.

(** [`${n}`] for a status code. *)
Definition string_of_nat (n : nat) : string :=
  NilEmpty.string_of_uint (Nat.to_uint n).

Section Scraper.

Context {cheerio : Cheerio}.
Variable net : Network.

Local Open Scope exc_scope.

(** Lines 22-40.  The timer only decides when [net] rejects. *)
Definition fetchWithTimeout (url : string) : Exc Response :=
  response <- net url ;;
  if negb (ok response)
  then Throw (MkError ("HTTP error! status: "
                       ++ string_of_nat (status response)))
  else Return response.

(** Lines 42-51. *)
Definition loadHTML (url : string) : Exc Doc :=
  try_catch
    (response <- fetchWithTimeout url ;;
     html <- text response ;;
     load html)
    (fun _ => Throw (MkError ("Failed to load URL: " ++ url))).

(** Lines 97-106. *)
Definition getRepoWebsite (repoUrl : string) : Exc (option string) :=
  try_catch
    (dollar <- loadHTML repoUrl ;;
     let website := first_attr dollar website_selector "href" in
     Return (option_map JS.trim website))
    (fun _ => Return None).

(** The body of the callback passed to [pinnedItems.map]
    (lines 62-91). *)
Definition pinnedItem (dollar : Doc) (username : string) (item : Item)
  : Exc PinnedRepo :=
  let repo := JS.trim (find_text dollar item repo_selector) in
  let description := JS.trim (find_text dollar item description_selector) in
  let language := JS.trim (find_next_text dollar item language_selector) in
  let languageColor :=
    find_css dollar item language_selector "background-color" in
  let stars :=
    parseNumericValue (JS.trim (find_text dollar item stargazers_selector)) in
  let forks :=
    parseNumericValue (JS.trim (find_text dollar item forks_selector)) in
  website <- getRepoWebsite
               ("https://github.com/" ++ username ++ "/" ++ repo) ;;
  Return {|
    owner := username;
    repo := repo;
    link := "https://github.com/" ++ username ++ "/" ++ repo;
    description := or_undefined description;
    image := "https://opengraph.githubassets.com/1/"
             ++ username ++ "/" ++ repo;
    website := website;
    language := or_undefined language;
    languageColor :=
      match languageColor with
      | Some c => or_undefined c
      | None => None
      end;
    stars := stars;
    forks := forks
  |}.

(** Lines 53-95. *)
Definition getPinnedRepos (username : string) : Exc (list PinnedRepo) :=
  dollar <- loadHTML ("https://github.com/" ++ username) ;;
  let pinnedItems := toArray dollar pinned_selector in
  match pinnedItems with
  | [] => Return []
  | _ =>
      repos <- Promise_all (map (pinnedItem dollar username) pinnedItems) ;;
      Return repos
  end.

End Scraper.

(* ================================================================== *)
(** * The request handler (index.ts, lines 118-183) *)
(* ================================================================== *)

(** What the handler reads of a [Request]: the method and the query
    parameters of its URL, in order. *)
Record Request : Type := mkRequest {
  method : string;
  searchParams : list (string * string)
}.

(** [url.searchParams.get(name)]: the first value of that name, or null. *)
Fixpoint searchParams_get (ps : list (string * string)) (name : string)
  : option string :=
  match ps with
  | [] => None
  | (k, v) :: ps' => if String.eqb k name then Some v else searchParams_get ps' name
  end.

(** The body handed to [new Response]. *)
Inductive Body : Type :=
| BodyNull                                   (* line 128 *)
| BodyInfoPage                               (* the HTML page, lines 137-155 *)
| BodyJson (result : option (list PinnedRepo)) (* JSON.stringify(result, null, 2) *)
| BodyError (error details : string).        (* line 179 *)

Record HttpResponse : Type := mkHttpResponse {
  http_status : nat;
  http_headers : list (string * string);
  http_body : Body
}.

(** Lines 119-125. *)
Definition headers : list (string * string) :=
  [ ("Access-Control-Allow-Origin", "*");
    ("Access-Control-Request-Method", "*");
    ("Access-Control-Allow-Methods", "OPTIONS, GET");
    ("Access-Control-Allow-Headers", "*");
    ("Cache-Control", "public, max-age=600") ].

Definition Cache : Type := LRU.t (list PinnedRepo).

(** Lines 18-20. *)
Definition cache0 : Cache := LRU.empty (list PinnedRepo) 500.

(** The promise [getPinnedRepos(username)] started at line 165, with the
    state it settles to; its [then] and [catch] callbacks run later. *)
Record Refresh : Type := mkRefresh {
  refresh_username : string;
  refresh_outcome : Exc (list PinnedRepo)
}.

Section Server.

Context {cheerio : Cheerio}.

(** One call of [handler] run to its end with no other event between:
    the response, the cache afterwards, and the detached refresh it has
    started, if any.  The call cut at the [await] of line 169, where
    other requests can come in, is [handler_begin] and [handler_resume]
    below. *)
Definition handler (net : Network) (cache : Cache) (request : Request)
  : HttpResponse * Cache * option Refresh :=
  if String.eqb (method request) "OPTIONS" then
    (mkHttpResponse 200 headers BodyNull, cache, None)
  else
    let username := searchParams_get (searchParams request) "username" in
    let refresh :=
      match searchParams_get (searchParams request) "refresh" with
      | Some r => String.eqb r "true"
      | None => false
      end in
    match (match username with
           | Some u => if String.eqb u EmptyString then None else Some u
           | None => None
           end) with
    | None =>
        (mkHttpResponse 200
           (headers ++ [("Content-Type", "text/html; charset=utf-8")])
           BodyInfoPage,
         cache, None)
    | Some username =>
        if (negb refresh && LRU.has cache username)%bool then
          let '(result, cache1) := LRU.get cache username in
          (mkHttpResponse 200
             (headers ++ [("Content-Type", "application/json")])
             (BodyJson result),
           cache1,
           Some (mkRefresh username (getPinnedRepos net username)))
        else
          match getPinnedRepos net username with
          | Return result =>
              (mkHttpResponse 200
                 (headers ++ [("Content-Type", "application/json")])
                 (BodyJson (Some result)),
               LRU.set cache username result,
               None)
          | Throw error =>
              (mkHttpResponse 500
                 (headers ++ [("Content-Type", "application/json")])
                 (BodyError "Failed to fetch pinned repositories"
                            (message error)),
               cache, None)
          end
    end.

(** The callbacks of line 166-167, run when the refresh settles:
    [then(data => cache.set(username, data))], [catch(console.error)]. *)
Definition settle (cache : Cache) (r : Refresh) : Cache :=
  match refresh_outcome r with
  | Return data => LRU.set cache (refresh_username r) data
  | Throw _ => cache
  end.

(** ** The event loop *)

(** The process: the cache and the refreshes in flight. *)
Record Server : Type := mkServer {
  cache : Cache;
  in_flight : list Refresh
}.

Definition server0 : Server := mkServer cache0 [].

(** What happens next: a request arrives (with the network as that call
    sees it), or the [i]-th refresh in flight settles. *)
Inductive Event : Type :=
| Incoming (net : Network) (request : Request)
| Settled (i : nat).

Definition remove_nth {A : Type} (i : nat) (l : list A) : list A :=
  firstn i l ++ skipn (S i) l.

Definition step (s : Server) (ev : Event) : Server * option HttpResponse :=
  match ev with
  | Incoming net request =>
      let '(response, cache1, started) := handler net (cache s) request in
      (mkServer cache1
         (in_flight s ++ match started with Some r => [r] | None => [] end),
       Some response)
  | Settled i =>
      match nth_error (in_flight s) i with
      | Some r =>
          (mkServer (settle (cache s) r) (remove_nth i (in_flight s)), None)
      | None => (s, None)
      end
  end.

(** Runs the events in order; the responses, oldest first. *)
Fixpoint run (s : Server) (evs : list Event) : Server * list HttpResponse :=
  match evs with
  | [] => (s, [])
  | ev :: evs' =>
      let '(s1, out) := step s ev in
      let '(s2, outs) := run s1 evs' in
      (s2, match out with Some r => r :: outs | None => outs end)
  end.

(** The states the process can be in. *)
Inductive reachable : Server -> Prop :=
| reachable_start : reachable server0
| reachable_step s ev : reachable s -> reachable (fst (step s ev)).

End Server.

(* ================================================================== *)
(** * A small world to run the program in *)
(* ================================================================== *)

Module Example.

(** A pinned item is given by the texts the selectors find in it. *)
Record ToyItem : Type := mkToyItem {
  ti_repo : string;
  ti_desc : string;
  ti_lang : string;
  ti_color : option string;
  ti_stars : string;
  ti_forks : string
}.

(** A page: its pinned items and the first sidebar link. *)
Record ToyDoc : Type := mkToyDoc {
  td_items : list ToyItem;
  td_href : option string
}.

Definition profile_doc : ToyDoc :=
  mkToyDoc
    [ mkToyItem " hello " "A greeting " "TypeScript" (Some "#3178c6")
                "1.2k" "5";
      mkToyItem "ledger" EmptyString EmptyString None "-5" "xk" ]
    None.

Definition empty_doc : ToyDoc := mkToyDoc [] None.

Definition repo_doc : ToyDoc := mkToyDoc [] (Some " https://hello.example ").

Definition toy_load (html : string) : Exc ToyDoc :=
  if String.eqb html "<profile>" then Return profile_doc
  else if String.eqb html "<empty>" then Return empty_doc
  else if String.eqb html "<repo>" then Return repo_doc
  else Throw (MkError "not a page").

#[export] Instance toy_cheerio : Cheerio := {|
  Doc := ToyDoc;
  Item := ToyItem;
  load := toy_load;
  toArray := fun d _ => td_items d;
  find_text := fun _ it sel =>
    if String.eqb sel repo_selector then ti_repo it
    else if String.eqb sel description_selector then ti_desc it
    else if String.eqb sel stargazers_selector then ti_stars it
    else if String.eqb sel forks_selector then ti_forks it
    else EmptyString;
  find_next_text := fun _ it _ => ti_lang it;
  find_css := fun _ it _ _ => ti_color it;
  first_attr := fun d _ _ => td_href d
|}.

Definition page (html : string) : Exc Response :=
  Return (mkResponse true 200 (Return html)).

(** octocat has two pinned items, nobody has none; the page of the
    repository hello loads, every other fetch is rejected. *)
Definition toy_net : Network := fun url =>
  if String.eqb url "https://github.com/octocat" then page "<profile>"
  else if String.eqb url "https://github.com/nobody" then page "<empty>"
  else if String.eqb url "https://github.com/octocat/hello" then page "<repo>"
  else Throw (MkError "connection refused").

(** Nothing can be fetched. *)
Definition net_down : Network := fun _ => Throw (MkError "connection refused").


Definition GET (username : string) (refresh : bool) : Request :=
  mkRequest "GET"
    (("username", username)
     :: if refresh then [("refresh", "true")] else []).



(** The records of octocat on [toy_net]. *)
Definition octocat_repos : list PinnedRepo :=
  match getPinnedRepos toy_net "octocat" with
  | Return repos => repos
  | Throw _ => []
  end.

(** The process after a first request for octocat has been served. *)
Definition warm : Server :=
  fst (run server0 [Incoming toy_net (GET "octocat" false)]).

(** The same with a refresh in flight that has failed. *)
Definition warm_failing : Server :=
  fst (run warm [Incoming net_down (GET "octocat" false)]).


End Example.

(* ================================================================== *)
(** * Vocabulary of the statements *)
(* ================================================================== *)

(** The record [r] with its [website] field replaced. *)
Definition with_website (r : PinnedRepo) (w : option string) : PinnedRepo :=
  {| owner := owner r;
     repo := repo r;
     link := link r;
     description := description r;
     image := image r;
     website := w;
     language := language r;
     languageColor := languageColor r;
     stars := stars r;
     forks := forks r |}.

(** The URL of a profile page, as [getPinnedRepos] writes it. *)
Definition profile_url (username : string) : string :=
  "https://github.com/" ++ username.

(** The page behind [url] when it can be retrieved: the fetch is not
    rejected (no network failure, no abort by the timer), the status is
    a 2xx one, the body can be read and cheerio loads it. *)
Definition retrieved {cheerio : Cheerio} (net : Network) (url : string)
  : option Doc :=
  match net url with
  | Return response =>
      if ok response then
        match text response with
        | Return html =>
            match load html with
            | Return dollar => Some dollar
            | Throw _ => None
            end
        | Throw _ => None
        end
      else None
  | Throw _ => None
  end.

(** A request that is not a preflight, names [username], and asks for a
    refresh or not. *)
Definition asks_for (request : Request) (username : string) (refresh : bool)
  : Prop :=
  String.eqb (method request) "OPTIONS" = false /\
  searchParams_get (searchParams request) "username" = Some username /\
  username <> EmptyString /\
  match searchParams_get (searchParams request) "refresh" with
  | Some r => String.eqb r "true"
  | None => false
  end = refresh.


(** A number that denotes a non-negative integer. *)
Definition natural (n : JS.number) : Prop :=
  exists z : Z, JS.to_Z n = Some z /\ (0 <= z)%Z.

(** [n] is the count the normalizer reads in [text].  Unless it is NaN
    it is an infinity or an integer, and it is not negative unless the
    text starts with a minus sign.  When the normalized text does not
    end in k, it is not NaN, it is 0 when [parseInt] fails, and it is the
    number the text spells when the text is a run of at most 15 decimal
    digits.  When the normalized text ends in k, it is not NaN provided
    the text before the k parses as a float; what it is otherwise is
    left open. *)
Definition counted (text : string) (n : JS.number) : Prop :=
  n = parseNumericValue text /\
  let normalized := JS.trim (JS.toLowerCase text) in
  let digits := list_ascii_of_string normalized in
  (JS.is_nan n = false ->
   JS.is_infinite n = true \/ exists z, JS.to_Z n = Some z) /\
  (JS.starts_with_minus digits = false ->
   JS.is_negative n = false /\ forall z, JS.to_Z n = Some z -> (0 <= z)%Z) /\
  (JS.endsWith normalized "k" = false ->
   JS.is_nan n = false /\
   (JS.parseInt normalized 10 = JS.NaN -> n = JS.of_Z 0) /\
   (digits <> [] ->
    forallb (JS.is_digit 10) digits = true ->
    List.length digits <= 15 ->
    JS.to_Z n = Some (Z.of_N (JS.digits_value 10 digits)))) /\
  (JS.endsWith normalized "k" = true ->
   JS.is_nan (JS.parseFloat (JS.slice_0_m1 normalized)) = false ->
   JS.is_nan n = false).

Ltac solve_asks_for :=
  repeat split; try reflexivity; discriminate.

(** The JSON response that carries [result]. *)
Definition json_response (result : option (list PinnedRepo)) : HttpResponse :=
  mkHttpResponse 200 (headers ++ [("Content-Type", "application/json")])
                 (BodyJson result).

(** The error envelope sent with status 500. *)
Definition error_response (error : Error) : HttpResponse :=
  mkHttpResponse 500 (headers ++ [("Content-Type", "application/json")])
                 (BodyError "Failed to fetch pinned repositories"
                            (message error)).

(* ================================================================== *)
(** * The port, and more vocabulary *)
(* ================================================================== *)

(** Lines 185-186.  [env_PORT] is what [Deno.env.get("PORT")] returns;
    [parseInt] is called without a radix, and [ToInt32(undefined)] is 0. *)
Definition port (env_PORT : option string) : JS.number :=
  JS.parseInt
    (match env_PORT with
     | Some p => if String.eqb p EmptyString then "80" else p
     | None => "80"
     end)
    0.

(** A request the handler answers without looking at the cache: a
    preflight, or one that names no user. *)
Definition is_passive (request : Request) : bool :=
  (String.eqb (method request) "OPTIONS"
   || match searchParams_get (searchParams request) "username" with
      | Some u => String.eqb u EmptyString
      | None => true
      end)%bool.

(** A record of [username]: its owner, and the link and image derived
    from the owner and the repository name. *)
Definition owned_by (username : string) (r : PinnedRepo) : Prop :=
  owner r = username /\
  link r = "https://github.com/" ++ username ++ "/" ++ repo r /\
  image r = "https://opengraph.githubassets.com/1/" ++ username ++ "/" ++ repo r.

(** The normalized form of a text, as [parseNumericValue] computes it. *)
Definition normalized (value : string) : string :=
  JS.trim (JS.toLowerCase value).

(** Only the profile page of octocat can be fetched. *)
Definition profile_only : Network := fun url =>
  if String.eqb url "https://github.com/octocat" then Example.page "<profile>"
  else Throw (MkError "connection refused").

(* ================================================================== *)
(** * The handler with its suspension (index.ts, lines 160-182) *)
(* ================================================================== *)

(** How far a call of [handler] gets before it first gives control
    back: it has returned its response (lines 128, 136, 173 after the
    branch of lines 164-167), or it is suspended at the [await] of line
    169 on the promise of [getPinnedRepos]. *)
Inductive Progress : Type :=
| Returned (response : HttpResponse) (cache1 : Cache)
           (started : option Refresh)
| Suspended (username : string) (fetching : Exc (list PinnedRepo)).

Section Suspension.

Context {cheerio : Cheerio}.

(** [handler] from its start to its first [await] or its [return]. *)
Definition handler_begin (net : Network) (cache : Cache) (request : Request)
  : Progress :=
  if String.eqb (method request) "OPTIONS" then
    Returned (mkHttpResponse 200 headers BodyNull) cache None
  else
    let username := searchParams_get (searchParams request) "username" in
    let refresh :=
      match searchParams_get (searchParams request) "refresh" with
      | Some r => String.eqb r "true"
      | None => false
      end in
    match (match username with
           | Some u => if String.eqb u EmptyString then None else Some u
           | None => None
           end) with
    | None =>
        Returned
          (mkHttpResponse 200
             (headers ++ [("Content-Type", "text/html; charset=utf-8")])
             BodyInfoPage)
          cache None
    | Some username =>
        if (negb refresh && LRU.has cache username)%bool then
          let '(result, cache1) := LRU.get cache username in
          Returned
            (mkHttpResponse 200
               (headers ++ [("Content-Type", "application/json")])
               (BodyJson result))
            cache1
            (Some (mkRefresh username (getPinnedRepos net username)))
        else
          Suspended username (getPinnedRepos net username)
    end.

(** [handler] from the moment the promise awaited at line 169 settles:
    lines 170-175 when it is fulfilled, lines 176-181 when it is
    rejected.  [cache] is the cache at that moment. *)
Definition handler_resume (cache : Cache) (username : string)
           (fetched : Exc (list PinnedRepo)) : HttpResponse * Cache :=
  match fetched with
  | Return result =>
      (mkHttpResponse 200
         (headers ++ [("Content-Type", "application/json")])
         (BodyJson (Some result)),
       LRU.set cache username result)
  | Throw error =>
      (mkHttpResponse 500
         (headers ++ [("Content-Type", "application/json")])
         (BodyError "Failed to fetch pinned repositories" (message error)),
       cache)
  end.

(** The process with its suspended calls: the cache, the calls of
    [handler] that wait at line 169 (user name and what the promise
    settles to), and the detached refreshes of line 165. *)
Record Loop : Type := mkLoop {
  loop_cache : Cache;
  awaiting : list Refresh;
  refreshing : list Refresh
}.

Definition loop0 : Loop := mkLoop cache0 [] [].

(** A turn of the event loop: a request arrives, the [i]-th suspended
    call resumes, or the [i]-th detached refresh settles. *)
Inductive Tick : Type :=
| Arrives (net : Network) (request : Request)
| Resumes (i : nat)
| Settles (i : nat).

Definition tick (s : Loop) (t : Tick) : Loop * option HttpResponse :=
  match t with
  | Arrives net request =>
      match handler_begin net (loop_cache s) request with
      | Returned response cache1 started =>
          (mkLoop cache1 (awaiting s)
             (refreshing s
                ++ match started with Some r => [r] | None => [] end),
           Some response)
      | Suspended username fetching =>
          (mkLoop (loop_cache s)
             (awaiting s ++ [mkRefresh username fetching])
             (refreshing s),
           None)
      end
  | Resumes i =>
      match nth_error (awaiting s) i with
      | Some r =>
          let '(response, cache1) :=
            handler_resume (loop_cache s) (refresh_username r)
                           (refresh_outcome r) in
          (mkLoop cache1 (remove_nth i (awaiting s)) (refreshing s),
           Some response)
      | None => (s, None)
      end
  | Settles i =>
      match nth_error (refreshing s) i with
      | Some r =>
          (mkLoop (settle (loop_cache s) r) (awaiting s)
                  (remove_nth i (refreshing s)),
           None)
      | None => (s, None)
      end
  end.

Fixpoint ticks (s : Loop) (ts : list Tick) : Loop * list HttpResponse :=
  match ts with
  | [] => (s, [])
  | t :: ts' =>
      let '(s1, out) := tick s t in
      let '(s2, outs) := ticks s1 ts' in
      (s2, match out with Some r => r :: outs | None => outs end)
  end.

Inductive running : Loop -> Prop :=
| running_start : running loop0
| running_tick s t : running s -> running (fst (tick s t)).

End Suspension.

Definition is_arrival (t : Tick) : Prop :=
  match t with
  | Arrives _ _ => True
  | _ => False
  end.

(** The process in which a first request for octocat is suspended on
    its fetch. *)
Definition octocat_awaited : Loop :=
  fst (@ticks Example.toy_cheerio loop0
         [Arrives Example.toy_net (Example.GET "octocat" false)]).

(* ================================================================== *)
(** * Properties of numbers *)
(* ================================================================== *)

Section FloatLemmas.

Local Open Scope Z_scope.

Lemma digits2_pos_upper (m : positive) :
  Z.pos m < 2 ^ Z.pos (digits2_pos m).
Proof.
  induction m as [m IH|m IH|]; simpl digits2_pos;
    try (rewrite Pos2Z.inj_succ, Z.pow_succ_r by lia); lia.
Qed.

Lemma digits2_pos_lower (m : positive) :
  2 ^ (Z.pos (digits2_pos m) - 1) <= Z.pos m.
Proof.
  assert (Hstep : forall d : positive,
             2 ^ (Z.pos (Pos.succ d) - 1) = 2 * 2 ^ (Z.pos d - 1)).
  { intros d. rewrite Pos2Z.inj_succ.
    replace (Z.succ (Z.pos d) - 1) with (Z.succ (Z.pos d - 1)) by lia.
    apply Z.pow_succ_r. pose proof (Pos2Z.is_pos d). lia. }
  induction m as [m IH|m IH|]; simpl digits2_pos.
  - rewrite Hstep. change (Z.pos m~1) with (2 * Z.pos m + 1).
    remember (2 ^ (Z.pos (digits2_pos m) - 1)) as x. lia.
  - rewrite Hstep. change (Z.pos m~0) with (2 * Z.pos m).
    remember (2 ^ (Z.pos (digits2_pos m) - 1)) as x. lia.
  - reflexivity.
Qed.

Lemma iter_xO_value (m d : positive) :
  Z.pos (Pos.iter xO m d) = Z.pos m * 2 ^ Z.pos d.
Proof.
  induction d as [|d IH] using Pos.peano_ind.
  - simpl. lia.
  - rewrite Pos.iter_succ, Pos2Z.inj_xO, IH, Pos2Z.inj_succ, Z.pow_succ_r by lia.
    lia.
Qed.

Lemma iter_xO_digits (m d : positive) :
  digits2_pos (Pos.iter xO m d) = (digits2_pos m + d)%positive.
Proof.
  induction d as [|d IH] using Pos.peano_ind.
  - simpl. lia.
  - rewrite Pos.iter_succ. simpl. rewrite IH. lia.
Qed.

Lemma shr_1_nonneg (mrs : shr_record) :
  0 <= shr_m mrs -> 0 <= shr_m (shr_1 mrs).
Proof.
  destruct mrs as [m r s]. simpl.
  destruct m as [|[p|p|]|[p|p|]]; simpl; lia.
Qed.

Lemma iter_shr_1_nonneg (p : positive) (mrs : shr_record) :
  0 <= shr_m mrs -> 0 <= shr_m (iter_pos shr_1 p mrs).
Proof.
  revert mrs. induction p as [p IH|p IH|]; intros mrs H; simpl.
  - apply IH, IH, shr_1_nonneg, H.
  - apply IH, IH, H.
  - apply shr_1_nonneg, H.
Qed.

Lemma shr_nonneg (mrs : shr_record) (e n : Z) :
  0 <= shr_m mrs ->
  0 <= shr_m (fst (shr mrs e n)) /\ e <= snd (shr mrs e n).
Proof.
  intros H. unfold shr. destruct n as [|p|p]; simpl; try (split; [exact H | lia]).
  split; [now apply iter_shr_1_nonneg | lia].
Qed.

Lemma shr_record_of_loc_m (m : Z) (l : location) :
  shr_m (shr_record_of_loc m l) = m.
Proof. destruct l as [|[| |]]; reflexivity. Qed.

Lemma shr_fexp_nonneg (m e : Z) (l : location) :
  0 <= m ->
  0 <= shr_m (fst (shr_fexp JS.prec JS.emax m e l)) /\
  e <= snd (shr_fexp JS.prec JS.emax m e l).
Proof.
  intros H. unfold shr_fexp. apply shr_nonneg.
  now rewrite shr_record_of_loc_m.
Qed.

Lemma round_nearest_even_nonneg (m : Z) (l : location) :
  0 <= m -> 0 <= round_nearest_even m l.
Proof.
  intros H. destruct l as [|[| |]]; simpl; try lia.
  destruct (Z.even m); lia.
Qed.

(** A rounded non-negative mantissa is a zero, an infinity or a finite
    number of the given sign whose exponent has not decreased. *)
Lemma binary_round_aux_cases (s : bool) (mx ex : Z) (lx : location) :
  0 <= mx ->
  let r := binary_round_aux JS.prec JS.emax s mx ex lx in
  r = S754_zero s \/ r = S754_infinity s \/
  exists m e, r = S754_finite s m e /\ ex <= e.
Proof.
  intros H r. subst r. unfold binary_round_aux.
  destruct (shr_fexp_nonneg ex lx H) as (H1 & E1).
  destruct (shr_fexp JS.prec JS.emax mx ex lx) as [mrs' e'].
  simpl in H1, E1.
  pose proof (round_nearest_even_nonneg (loc_of_shr_record mrs') H1) as H2.
  destruct (shr_fexp_nonneg e' loc_Exact H2) as (H3 & E3).
  destruct (shr_fexp JS.prec JS.emax _ e' loc_Exact) as [mrs'' e''].
  simpl in H3, E3.
  destruct (shr_m mrs'') as [|m|m]; [auto | | lia].
  destruct (e'' <=? JS.emax - JS.prec); [ | auto].
  right; right. exists m, e''. split; [reflexivity | lia].
Qed.

(** A mantissa that is already in place is kept as it is. *)
Lemma binary_round_aux_exact (s : bool) (m : positive) (e : Z) :
  fexp JS.prec JS.emax (Z.pos (digits2_pos m) + e) <= e ->
  e <= JS.emax - JS.prec ->
  binary_round_aux JS.prec JS.emax s (Z.pos m) e loc_Exact
  = S754_finite s m e.
Proof.
  intros Hfexp He. unfold binary_round_aux.
  assert (Hshr : shr_fexp JS.prec JS.emax (Z.pos m) e loc_Exact
                 = (Build_shr_record (Z.pos m) false false, e)).
  { unfold shr_fexp, shr. simpl Zdigits2. simpl shr_record_of_loc.
    destruct (fexp JS.prec JS.emax (Z.pos (digits2_pos m) + e) - e)
      eqn:E; try reflexivity. lia. }
  rewrite Hshr. simpl loc_of_shr_record. simpl round_nearest_even.
  cbn [shr_m]. rewrite Hshr. cbn [shr_m].
  apply Z.leb_le in He. now rewrite He.
Qed.


Lemma fexp_binary64 (e : Z) :
  fexp JS.prec JS.emax e = Z.max (e - 53) (-1074).
Proof. reflexivity. Qed.

Lemma to_Z_finite_nonneg_exp (s : bool) (m : positive) (e : Z) :
  0 <= e -> JS.to_Z (S754_finite s m e) = Some (cond_Zopp s (Z.pos m * 2 ^ e)).
Proof.
  intros He. unfold JS.to_Z. apply Z.leb_le in He. now rewrite He.
Qed.

Lemma to_Z_aligned (s : bool) (m d : positive) :
  JS.to_Z (S754_finite s (Pos.iter xO m d) (Z.neg d))
  = Some (cond_Zopp s (Z.pos m)).
Proof.
  unfold JS.to_Z. change (0 <=? Z.neg d) with false. cbv iota.
  change (- Z.neg d) with (Z.pos d).
  rewrite iter_xO_value.
  assert (Hpow : 0 < 2 ^ Z.pos d) by (apply Z.pow_pos_nonneg; lia).
  rewrite Z.mod_mul by lia. rewrite Z.eqb_refl.
  rewrite Z.div_mul by lia. reflexivity.
Qed.

(** What [binary_round] makes of a positive integer mantissa at
    exponent 0: the integer itself, unless the mantissa has more than 53
    binary digits, and then still a zero, an infinity or a finite number
    with a non-negative exponent; the sign is kept. *)
Lemma binary_round_integer (s : bool) (m : positive) :
  let r := binary_round JS.prec JS.emax s m 0 in
  (exists m' e', r = S754_finite s m' e' /\
                 JS.to_Z r = Some (cond_Zopp s (Z.pos m))) \/
  (53 < Z.pos (digits2_pos m) /\
   (r = S754_zero s \/ r = S754_infinity s \/
    exists m' e', r = S754_finite s m' e' /\ 0 <= e')).
Proof.
  unfold binary_round, shl_align.
  rewrite Z.add_0_r, Z.sub_0_r, fexp_binary64.
  pose proof (Pos2Z.is_pos (digits2_pos m)) as Hd.
  destruct (Z.max (Z.pos (digits2_pos m) - 53) (-1074)) as [|q|d] eqn:E.
  - (* exactly 53 binary digits *)
    left. exists m, 0. rewrite binary_round_aux_exact.
    + split; [reflexivity | ].
      rewrite to_Z_finite_nonneg_exp by lia.
      now rewrite Z.pow_0_r, Z.mul_1_r.
    + rewrite Z.add_0_r, fexp_binary64. lia.
    + unfold JS.emax, JS.prec. lia.
  - (* more than 53 binary digits: the mantissa is shifted right *)
    right. split; [lia | ].
    destruct (@binary_round_aux_cases s (Z.pos m) 0 loc_Exact)
      as [-> | [-> | (m' & e' & -> & He')]]; eauto 6. lia.
  - (* fewer: the mantissa has been shifted left *)
    left. exists (Pos.iter xO m d), (Z.neg d). rewrite binary_round_aux_exact.
    + split; [reflexivity | apply to_Z_aligned].
    + rewrite iter_xO_digits, fexp_binary64. lia.
    + unfold JS.emax, JS.prec. lia.
Qed.

Lemma digits2_pos_small (m : positive) :
  Z.pos m < 2 ^ 53 -> Z.pos (digits2_pos m) <= 53.
Proof.
  intros H. pose proof (digits2_pos_lower m) as Hl.
  destruct (Z_le_gt_dec (Z.pos (digits2_pos m)) 53) as [Hle|Hgt]; [exact Hle|].
  exfalso.
  assert (2 ^ 53 <= 2 ^ (Z.pos (digits2_pos m) - 1))
    by (apply Z.pow_le_mono_r; lia).
  lia.
Qed.


Lemma of_Z_signed (neg : bool) (p : positive) :
  JS.of_Z (cond_Zopp neg (Z.pos p)) = binary_round JS.prec JS.emax neg p 0.
Proof. now destruct neg. Qed.

(** The Number value for a non-zero integer is never NaN; it is an
    infinity or an integer, and negative only if the integer is. *)
Lemma of_Z_integer (neg : bool) (p : positive) :
  let x := JS.of_Z (cond_Zopp neg (Z.pos p)) in
  JS.is_nan x = false /\
  JS.is_negative x = neg /\
  (JS.is_infinite x = true \/
   exists z, JS.to_Z x = Some (cond_Zopp neg z) /\ 0 <= z).
Proof.
  cbv zeta. rewrite of_Z_signed.
  destruct (binary_round_integer neg p)
    as [(m' & e' & -> & Hz) | (_ & [-> | [-> | (m' & e' & -> & He')]])].
  - repeat split. right. exists (Z.pos p). split; [exact Hz | lia].
  - repeat split. right. exists 0. split; [now destruct neg | lia].
  - repeat split. now left.
  - repeat split. right. exists (Z.pos m' * 2 ^ e').
    split; [now apply to_Z_finite_nonneg_exp | ].
    apply Z.mul_nonneg_nonneg; [lia | apply Z.pow_nonneg; lia].
Qed.

(** Below 2^53 it is the integer itself, and truthy. *)
Lemma of_Z_exact (neg : bool) (p : positive) :
  Z.pos p < 2 ^ 53 ->
  let x := JS.of_Z (cond_Zopp neg (Z.pos p)) in
  JS.to_Z x = Some (cond_Zopp neg (Z.pos p)) /\ JS.ToBoolean x = true.
Proof.
  intros Hp. cbv zeta. rewrite of_Z_signed.
  pose proof (digits2_pos_small Hp) as Hd.
  destruct (binary_round_integer neg p)
    as [(m' & e' & E & Hz) | (Hlarge & _)]; [ | lia].
  split; [exact Hz | now rewrite E].
Qed.

End FloatLemmas.

Section RoundLemmas.

Local Open Scope Z_scope.

(** [Math.round] of a finite number with a 53-bit mantissa is the integer
    [z] with z <= x + 1/2 < z + 1. *)
Lemma Math_round_nearest (s : bool) (m : positive) (e : Z) :
  Z.pos m < 2 ^ 53 ->
  e < 0 ->
  let n := cond_Zopp s (Z.pos m) in
  exists z,
    JS.to_Z (JS.Math_round (S754_finite s m e)) = Some z /\
    2 * z * 2 ^ (- e) <= 2 * n + 2 ^ (- e) < 2 * (z + 1) * 2 ^ (- e).
Proof.
  intros Hm He n. unfold JS.Math_round.
  destruct (Z.leb_spec 0 e) as [Hle|_]; [lia|].
  cbv zeta. fold n.
  set (k := - e). assert (Hk : 0 < k) by (unfold k; lia).
  rewrite Z.shiftr_div_pow2 by lia.
  rewrite Z.pow_add_r by lia. rewrite Z.pow_1_r.
  set (D := 2 ^ k). assert (HD : 2 <= D).
  { unfold D. replace k with (Z.succ (k - 1)) by lia.
    rewrite Z.pow_succ_r by lia.
    assert (0 < 2 ^ (k - 1)) by (apply Z.pow_pos_nonneg; lia). lia. }
  set (r := (2 * n + D) / (D * 2)).
  assert (Hfloor : 2 * r * D <= 2 * n + D < 2 * (r + 1) * D).
  { pose proof (Z.mul_div_le (2 * n + D) (D * 2)) as H1.
    pose proof (Z.mul_succ_div_gt (2 * n + D) (D * 2)) as H2.
    fold r in H1, H2. split; [ | unfold Z.succ in H2]; nia. }
  assert (Hn : - Z.pos m <= n <= Z.pos m) by (unfold n; destruct s; simpl; lia).
  assert (Hr : - 2 ^ 53 < r < 2 ^ 53).
  { change (2 ^ 53) with 9007199254740992 in *. nia. }
  exists r. split; [ | exact Hfloor].
  destruct (Z.eqb_spec r 0) as [-> | Hr0]; [reflexivity|].
  destruct r as [|p|p]; [congruence | | ].
  - destruct (@of_Z_exact false p) as (Hz & _); [lia | exact Hz].
  - destruct (@of_Z_exact true p) as (Hz & _); [ | exact Hz].
    change (Z.neg p) with (- Z.pos p) in Hr. lia.
Qed.

End RoundLemmas.

(* ================================================================== *)
(** * Properties of the numeric normalizer *)
(* ================================================================== *)

Section StringLemmas.

Lemma list_ascii_of_string_app (s1 s2 : string) :
  list_ascii_of_string (s1 ++ s2)
  = (list_ascii_of_string s1 ++ list_ascii_of_string s2)%list.
Proof.
  induction s1 as [|c s1 IH]; simpl; [reflexivity | now rewrite IH].
Qed.

Lemma trimStart_list_snoc (l : list ascii) (c : ascii) :
  JS.isWhiteSpace c = false ->
  JS.trimStart_list (l ++ [c]) = (JS.trimStart_list l ++ [c])%list.
Proof.
  intros Hc. induction l as [|a l IH]; simpl.
  - now rewrite Hc.
  - destruct (JS.isWhiteSpace a); [exact IH | reflexivity].
Qed.

Lemma trimStart_list_idem (l : list ascii) :
  JS.trimStart_list (JS.trimStart_list l) = JS.trimStart_list l.
Proof.
  induction l as [|a l IH]; simpl; [reflexivity|].
  destruct (JS.isWhiteSpace a) eqn:E; [exact IH | simpl; now rewrite E].
Qed.

Lemma trim_list_snoc (l : list ascii) (c : ascii) :
  JS.isWhiteSpace c = false ->
  JS.trim_list (l ++ [c]) = (JS.trimStart_list l ++ [c])%list.
Proof.
  intros Hc. unfold JS.trim_list, JS.trimEnd_list.
  rewrite trimStart_list_snoc by exact Hc.
  rewrite rev_app_distr. simpl. rewrite Hc.
  change (c :: rev (JS.trimStart_list l))
    with (rev [c] ++ rev (JS.trimStart_list l))%list.
  rewrite <- rev_app_distr. apply rev_involutive.
Qed.

Lemma parseFloat_trimStart (l : list ascii) :
  JS.parseFloat (string_of_list_ascii (JS.trimStart_list l))
  = JS.parseFloat (string_of_list_ascii l).
Proof.
  unfold JS.parseFloat.
  rewrite !list_ascii_of_string_of_list_ascii.
  now rewrite trimStart_list_idem.
Qed.

(** The normalized form of a text that ends in k or K. *)
Lemma normalized_snoc_k (p : string) (c : ascii) :
  c = "k"%char \/ c = "K"%char ->
  list_ascii_of_string (JS.trim (JS.toLowerCase (p ++ String c EmptyString)))
  = (JS.trimStart_list (map JS.toLowerCase_char (list_ascii_of_string p))
       ++ ["k"%char])%list.
Proof.
  intros Hc. unfold JS.trim, JS.toLowerCase.
  rewrite !list_ascii_of_string_of_list_ascii.
  rewrite list_ascii_of_string_app, map_app. simpl.
  replace (JS.toLowerCase_char c) with "k"%char
    by (destruct Hc; subst c; reflexivity).
  now apply trim_list_snoc.
Qed.

End StringLemmas.

(** What the function computes on a text that ends in k or K: the
    lower-cased text before the letter goes through [parseFloat], is
    multiplied by 1000 and rounded. *)
Lemma parseNumericValue_snoc_k (p : string) (c : ascii) :
  c = "k"%char \/ c = "K"%char ->
  parseNumericValue (p ++ String c EmptyString)
  = JS.Math_round (JS.mul (JS.parseFloat (JS.toLowerCase p)) (JS.of_Z 1000)).
Proof.
  intros Hc. unfold parseNumericValue.
  assert (Hne : String.eqb (p ++ String c EmptyString) EmptyString = false).
  { destruct p; reflexivity. }
  rewrite Hne.
  pose proof (normalized_snoc_k p Hc) as Hn.
  unfold JS.endsWith, JS.slice_0_m1. rewrite Hn.
  rewrite rev_app_distr. simpl rev. cbn [app].
  change (Ascii.eqb "k" "k") with true. cbv iota.
  rewrite removelast_last.
  rewrite parseFloat_trimStart.
  reflexivity.
Qed.

(** What the function computes on the other non-empty texts. *)
Lemma parseNumericValue_integer_branch (value : string) :
  value <> EmptyString ->
  JS.endsWith (JS.trim (JS.toLowerCase value)) "k" = false ->
  parseNumericValue value
  = JS.lor (JS.parseInt (JS.trim (JS.toLowerCase value)) 10) (JS.of_Z 0).
Proof.
  intros Hne Hk. unfold parseNumericValue.
  destruct (String.eqb_spec value EmptyString) as [E|_]; [contradiction|].
  now rewrite Hk.
Qed.

Section ParseIntLemmas.

Local Open Scope Z_scope.

(** [parseInt] at radix 10, without the parts that only other radixes
    use. *)
Lemma parseInt_10 (s : string) :
  JS.parseInt s 10
  = let S0 := JS.trimStart_list (list_ascii_of_string s) in
    let neg := JS.starts_with_minus S0 in
    match fst (JS.span_digits 10 (JS.strip_sign S0)) with
    | [] => JS.NaN
    | ds =>
        match JS.digits_value 10 ds with
        | N0 => S754_zero neg
        | Npos p => JS.of_Z (cond_Zopp neg (Z.pos p))
        end
    end.
Proof.
  unfold JS.parseInt. change (JS.ToInt32 10) with 10.
  change (10 =? 0) with false. change (10 =? 16) with false.
  change (2 <=? 10) with true. change (10 <=? 36) with true.
  cbv beta iota zeta delta [orb andb].
  change (Z.to_N 10) with 10%N.
  destruct (JS.span_digits 10 _) as [ds rest]. now destruct ds.
Qed.

(** [parseInt(s, 10) || 0] is never NaN; it is an infinity or an
    integer, negative only when the digits follow a minus sign, and 0
    when [parseInt] gives NaN. *)
Lemma parseInt_or_zero (s : string) :
  let n := JS.lor (JS.parseInt s 10) (JS.of_Z 0) in
  let neg := JS.starts_with_minus
               (JS.trimStart_list (list_ascii_of_string s)) in
  JS.is_nan n = false /\
  (JS.is_infinite n = true \/ exists z, JS.to_Z n = Some z) /\
  (neg = false ->
   JS.is_negative n = false /\ forall z, JS.to_Z n = Some z -> 0 <= z) /\
  (JS.parseInt s 10 = JS.NaN -> n = JS.of_Z 0).
Proof.
  cbv zeta. rewrite parseInt_10. cbv zeta.
  set (neg := JS.starts_with_minus _).
  assert (Hzero : JS.is_nan (JS.of_Z 0) = false /\
                  (JS.is_infinite (JS.of_Z 0) = true \/
                   exists z, JS.to_Z (JS.of_Z 0) = Some z) /\
                  (neg = false ->
                   JS.is_negative (JS.of_Z 0) = false /\
                   forall z, JS.to_Z (JS.of_Z 0) = Some z -> 0 <= z)).
  { split; [reflexivity | split].
    - right. now exists 0.
    - intros _. split; [reflexivity | ].
      intros z Hz. injection Hz as <-. lia. }
  destruct (fst (JS.span_digits 10 _)) as [|c ds].
  - (* no digit *)
    change (JS.lor JS.NaN (JS.of_Z 0)) with (JS.of_Z 0).
    destruct Hzero as (H1 & H2 & H3). auto.
  - destruct (JS.digits_value 10 (c :: ds)) as [|p].
    + (* the digits denote 0 *)
      change (JS.lor (S754_zero neg) (JS.of_Z 0)) with (JS.of_Z 0).
      destruct Hzero as (H1 & H2 & H3).
      repeat split; auto; try (now apply H3). 
    + destruct (of_Z_integer neg p) as (Hnan & Hneg & Hint).
      set (x := JS.of_Z (cond_Zopp neg (Z.pos p))) in *.
      unfold JS.lor. destruct (JS.ToBoolean x) eqn:Hb.
      * split; [exact Hnan | split; [ | split]].
        -- destruct Hint as [Hinf | (z & Hz & _)]; eauto.
        -- intros Hn. rewrite Hn in *. split; [exact Hneg | ].
           intros z Hz. destruct Hint as [Hinf | (z' & Hz' & Hpos)].
           ++ destruct x; simpl in *; congruence.
           ++ rewrite Hz in Hz'. injection Hz' as ->. exact Hpos.
        -- intros Hx. rewrite Hx in Hnan. discriminate.
      * destruct Hzero as (H1 & H2 & H3). repeat split; auto; now apply H3.
Qed.

End ParseIntLemmas.

Section DigitLemmas.

Local Open Scope Z_scope.

(** A decimal digit is no white space, no sign and not the letter k. *)
Lemma decimal_digit_facts (c : ascii) :
  JS.is_digit 10 c = true ->
  JS.isWhiteSpace c = false /\
  Ascii.eqb c "+" = false /\
  Ascii.eqb c "-" = false /\
  Ascii.eqb c "k" = false /\
  exists d, JS.digit_value c = Some d /\ (d < 10)%N.
Proof.
  destruct c as [b0 b1 b2 b3 b4 b5 b6 b7].
  destruct b0, b1, b2, b3, b4, b5, b6, b7; intros H;
    try discriminate H;
    (repeat split; try reflexivity; eexists; split; reflexivity).
Qed.

Lemma span_digits_all (ds : list ascii) :
  forallb (JS.is_digit 10) ds = true -> JS.span_digits 10 ds = (ds, []).
Proof.
  induction ds as [|c ds IH]; simpl; [reflexivity|].
  intros H. apply andb_prop in H as (Hc & Hds).
  now rewrite Hc, (IH Hds).
Qed.

Lemma digits_value_step (ds : list ascii) (acc : N) :
  forallb (JS.is_digit 10) ds = true ->
  (fold_left
     (fun a c => a * 10 + match JS.digit_value c with
                          | Some d => d
                          | None => 0
                          end) ds acc + 1
   <= (acc + 1) * 10 ^ N.of_nat (List.length ds))%N.
Proof.
  revert acc. induction ds as [|c ds IH]; intros acc H.
  - simpl. lia.
  - apply andb_prop in H as (Hc & Hds).
    destruct (decimal_digit_facts c Hc) as (_ & _ & _ & _ & d & Hd & Hlt).
    cbn [fold_left List.length]. rewrite Hd.
    etransitivity; [apply (IH _ Hds) | ].
    rewrite Nat2N.inj_succ, N.pow_succ_r'.
    rewrite N.mul_assoc. apply N.mul_le_mono_r. lia.
Qed.

Lemma digits_value_bound (ds : list ascii) :
  forallb (JS.is_digit 10) ds = true ->
  (JS.digits_value 10 ds < 10 ^ N.of_nat (List.length ds))%N.
Proof.
  intros H. pose proof (digits_value_step ds 0 H) as Hb.
  unfold JS.digits_value. rewrite N.mul_1_l in Hb. lia.
Qed.

Lemma trimStart_list_head (c : ascii) (l : list ascii)
      (H : JS.isWhiteSpace c = false) :
  JS.trimStart_list (c :: l) = c :: l.
Proof. simpl. now rewrite H. Qed.

(** A trimmed text has nothing left to trim at its start. *)
Lemma trimStart_trim_list (l : list ascii) :
  JS.trimStart_list (JS.trim_list l) = JS.trim_list l.
Proof.
  unfold JS.trim_list, JS.trimEnd_list.
  assert (Hhead : forall t, JS.trimStart_list t = t ->
                            JS.trimStart_list (rev (JS.trimStart_list (rev t)))
                            = rev (JS.trimStart_list (rev t))).
  { intros [|c t] Ht; [reflexivity|].
    assert (Hc : JS.isWhiteSpace c = false).
    { simpl in Ht. destruct (JS.isWhiteSpace c) eqn:E; [ | reflexivity].
      exfalso. clear -Ht.
      assert (Hlen : forall x, (List.length (JS.trimStart_list x)
                                <= List.length x)%nat).
      { induction x as [|a x IH]; simpl; [lia|].
        destruct (JS.isWhiteSpace a); simpl; lia. }
      pose proof (Hlen t) as H. rewrite Ht in H. simpl in H. lia. }
    simpl rev. rewrite trimStart_list_snoc by exact Hc.
    rewrite rev_app_distr. simpl. now rewrite Hc. }
  apply Hhead, trimStart_list_idem.
Qed.

End DigitLemmas.

Section CountLemmas.

Local Open Scope Z_scope.

(** A run of at most 15 decimal digits is read exactly. *)
Lemma parseInt_digits (s : string) :
  let ds := list_ascii_of_string s in
  ds <> [] ->
  forallb (JS.is_digit 10) ds = true ->
  (List.length ds <= 15)%nat ->
  JS.to_Z (JS.lor (JS.parseInt s 10) (JS.of_Z 0))
  = Some (Z.of_N (JS.digits_value 10 ds)).
Proof.
  cbv zeta. intros Hne Hall Hlen. rewrite parseInt_10. cbv zeta.
  pose proof (digits_value_bound _ Hall) as Hbound.
  pose proof (span_digits_all _ Hall) as Hspan.
  destruct (list_ascii_of_string s) as [|c l]; [congruence|].
  simpl in Hall. apply andb_prop in Hall as (Hc & _).
  destruct (decimal_digit_facts c Hc) as (Hws & Hplus & Hminus & _).
  rewrite (@trimStart_list_head c l Hws).
  unfold JS.strip_sign, JS.starts_with_minus. rewrite Hplus, Hminus.
  cbn [orb]. rewrite Hspan. cbn [fst].
  destruct (JS.digits_value 10 (c :: l)) as [|p]; [reflexivity|].
  assert (Hp : Z.pos p < 2 ^ 53).
  { assert (H15 : (10 ^ N.of_nat (List.length (c :: l)) <= 10 ^ 15)%N)
      by (apply N.pow_le_mono_r; lia).
    change (10 ^ 15)%N with 1000000000000000%N in H15.
    change (2 ^ 53) with 9007199254740992. lia. }
  destruct (of_Z_exact false Hp) as (Hz & Hb).
  simpl cond_Zopp in Hz, Hb. unfold JS.lor. simpl cond_Zopp.
  rewrite Hb. exact Hz.
Qed.

(** What the normalizer yields on a text that does not end in k. *)
Lemma parseNumericValue_integer_branch_facts (text : string) :
  let normalized := JS.trim (JS.toLowerCase text) in
  let digits := list_ascii_of_string normalized in
  let n := parseNumericValue text in
  JS.endsWith normalized "k" = false ->
  JS.is_nan n = false /\
  (JS.is_infinite n = true \/ exists z, JS.to_Z n = Some z) /\
  (JS.starts_with_minus digits = false ->
   JS.is_negative n = false /\ forall z, JS.to_Z n = Some z -> 0 <= z) /\
  (JS.parseInt normalized 10 = JS.NaN -> n = JS.of_Z 0) /\
  (digits <> [] ->
   forallb (JS.is_digit 10) digits = true ->
   (List.length digits <= 15)%nat ->
   JS.to_Z n = Some (Z.of_N (JS.digits_value 10 digits))).
Proof.
  cbv zeta. intros Hk.
  destruct (String.eqb_spec text EmptyString) as [-> | Hne].
  - (* the empty text *)
    change (parseNumericValue EmptyString) with (JS.of_Z 0).
    change (JS.trim (JS.toLowerCase EmptyString)) with EmptyString.
    split; [reflexivity | split; [right; now exists 0 | split; [ | split]]].
    + intros _. split; [reflexivity | ].
      intros z Hz. injection Hz as <-. lia.
    + reflexivity.
    + intros Habs. now elim Habs.
  - rewrite (parseNumericValue_integer_branch Hne Hk).
    set (normalized := JS.trim (JS.toLowerCase text)).
    destruct (parseInt_or_zero normalized) as (Hnan & Hint & Hneg & Hfail).
    assert (Htrim : JS.trimStart_list (list_ascii_of_string normalized)
                    = list_ascii_of_string normalized).
    { unfold normalized, JS.trim.
      rewrite list_ascii_of_string_of_list_ascii.
      apply trimStart_trim_list. }
    rewrite Htrim in Hneg.
    repeat split; try assumption; try (now apply Hneg).
    apply parseInt_digits.
Qed.

End CountLemmas.

Section SignLemmas.

Local Open Scope Z_scope.

Lemma of_Z_1000 : JS.of_Z 1000 = S754_finite false 8796093022208000 (-43).
Proof. vm_compute. reflexivity. Qed.

(** A number whose sign bit is clear denotes no negative integer. *)
Lemma to_Z_nonneg (n : JS.number) (z : Z) :
  JS.is_negative n = false -> JS.to_Z n = Some z -> 0 <= z.
Proof.
  destruct n as [s|s| |s m e]; unfold JS.is_negative, JS.to_Z;
    try discriminate.
  - intros _ H. injection H as <-. lia.
  - intros ->. cbn [cond_Zopp].
    destruct (Z.leb_spec 0 e) as [He|He].
    + set (v := Z.pos m * 2 ^ e). intros H. injection H as <-. unfold v.
      apply Z.mul_nonneg_nonneg; [lia | apply Z.pow_nonneg; lia].
    + destruct (Z.pos m mod 2 ^ (- e) =? 0); [ | discriminate].
      set (v := Z.pos m / 2 ^ (- e)). intros H. injection H as <-. unfold v.
      apply Z.div_pos; [lia | ]. apply Z.pow_pos_nonneg; lia.
Qed.

(** Multiplying by 1000 keeps NaN-ness and the sign bit. *)
Lemma mul_1000 (x : JS.number) :
  JS.is_nan (JS.mul x (JS.of_Z 1000)) = JS.is_nan x /\
  JS.is_negative (JS.mul x (JS.of_Z 1000)) = JS.is_negative x.
Proof.
  rewrite of_Z_1000. destruct x as [s|s| |s m e]; simpl;
    try (rewrite xorb_false_r; split; reflexivity); [split; reflexivity | ].
  destruct (@binary_round_aux_cases (xorb s false)
              (Z.pos (m * 8796093022208000)) (e + -43) loc_Exact)
    as [H | [H | (m' & e' & H & _)]]; [lia | | | ];
    cbv zeta in H; unfold JS.mul, SFmul; rewrite H; simpl;
    rewrite xorb_false_r; split; reflexivity.
Qed.

(** [Math.round] keeps NaN-ness and a clear sign bit, and what it
    returns for a number that is not NaN is an infinity or an integer. *)
Lemma Math_round_facts (x : JS.number) :
  JS.is_nan (JS.Math_round x) = JS.is_nan x /\
  (JS.is_negative x = false -> JS.is_negative (JS.Math_round x) = false) /\
  (JS.is_nan x = false ->
   JS.is_infinite (JS.Math_round x) = true \/
   exists z, JS.to_Z (JS.Math_round x) = Some z).
Proof.
  destruct x as [s|s| |s m e]; cbn [JS.Math_round JS.is_nan JS.is_negative].
  - split; [reflexivity | split; [auto | ]]. intros _. right. now exists 0.
  - split; [reflexivity | split; [auto | ]]. intros _. now left.
  - split; [reflexivity | split; [auto | discriminate]].
  - destruct (Z.leb_spec 0 e) as [He|He].
    + split; [reflexivity | split; [auto | ]]. intros _. right.
      rewrite to_Z_finite_nonneg_exp by exact He. eauto.
    + cbv zeta.
      set (r := Z.shiftr (2 * cond_Zopp s (Z.pos m) + 2 ^ (- e)) (- e + 1)).
      destruct (Z.eqb_spec r 0) as [Hr0|Hr0].
      * split; [reflexivity | split; [auto | ]]. intros _. right. now exists 0.
      * assert (Hsign : s = false -> 0 <= r).
        { intros ->. unfold r. apply Z.shiftr_nonneg. cbn [cond_Zopp].
          assert (0 < 2 ^ (- e)) by (apply Z.pow_pos_nonneg; lia). lia. }
        destruct r as [|p|p]; [congruence | | ].
        -- destruct (of_Z_integer false p) as (Hnan & Hneg & Hint).
           cbn [cond_Zopp] in *.
           split; [exact Hnan | split; [intros _; exact Hneg | ]].
           intros _. destruct Hint as [Hinf | (z & Hz & _)]; eauto.
        -- destruct (of_Z_integer true p) as (Hnan & Hneg & Hint).
           cbn [cond_Zopp] in *. change (- Z.pos p) with (Z.neg p) in *.
           split; [exact Hnan | split].
           ++ intros Hs. specialize (Hsign Hs). lia.
           ++ intros _. destruct Hint as [Hinf | (z & Hz & _)]; eauto.
Qed.

End SignLemmas.

Section ParseFloatSign.

Local Open Scope Z_scope.

Lemma div_eucl_nonneg (a b : Z) :
  0 <= a -> 0 < b -> 0 <= fst (Z.div_eucl a b).
Proof. intros Ha Hb. change (fst (Z.div_eucl a b)) with (a / b). now apply Z.div_pos. Qed.

(** The Number value for a decimal literal has the sign of the literal. *)
Lemma of_decimal_sign (m : N) (e10 : Z) :
  JS.is_negative (JS.of_decimal false m e10) = false.
Proof.
  unfold JS.of_decimal. destruct m as [|p]; [reflexivity|].
  destruct (Z.leb_spec 0 e10) as [He|He].
  - cbn [cond_Zopp].
    assert (Hpos : 0 < Z.pos p * 10 ^ e10).
    { apply Z.mul_pos_pos; [lia | apply Z.pow_pos_nonneg; lia]. }
    destruct (Z.pos p * 10 ^ e10) as [|q|q]; try lia.
    change (binary_normalize JS.prec JS.emax (Z.pos q) 0 false)
      with (JS.of_Z (cond_Zopp false (Z.pos q))).
    apply (of_Z_integer false q).
  - unfold SFdiv, SFdiv_core_binary.
    set (d := Z.to_pos (10 ^ (- e10))).
    set (e' := Z.min _ _).
    set (m' := match 0 - 0 - e' with
               | 0 => Z.pos p
               | Z.pos _ => Z.shiftl (Z.pos p) (0 - 0 - e')
               | Z.neg _ => 0
               end).
    assert (Hm' : 0 <= m').
    { unfold m'. destruct (0 - 0 - e'); try lia.
      apply Z.shiftl_nonneg. lia. }
    assert (Hq : 0 <= fst (Z.div_eucl m' (Z.pos d)))
      by (apply div_eucl_nonneg; [exact Hm' | lia]).
    destruct (Z.div_eucl m' (Z.pos d)) as [q r]. cbn [fst] in Hq.
    destruct (@binary_round_aux_cases (xorb false false) q e'
                (new_location (Z.pos d) r) Hq)
      as [H | [H | (m2 & e2 & H & _)]]; cbv zeta in H; rewrite H;
      reflexivity.
Qed.

Lemma parseFloat_sign (s : string) :
  JS.starts_with_minus (JS.trimStart_list (list_ascii_of_string s)) = false ->
  JS.is_negative (JS.parseFloat s) = false.
Proof.
  intros Hneg. unfold JS.parseFloat. rewrite Hneg.
  destruct (JS.is_prefix _ _); [reflexivity|].
  destruct (JS.span_digits 10 _) as [ip r1].
  destruct (match r1 with
            | [] => ([], r1)
            | c :: r => if Ascii.eqb c "." then JS.span_digits 10 r else ([], r1)
            end) as [fp r2].
  destruct (ip ++ fp)%list; [reflexivity | apply of_decimal_sign].
Qed.

Lemma trimStart_fixed_head (c : ascii) (l : list ascii) :
  JS.trimStart_list (c :: l) = c :: l -> JS.isWhiteSpace c = false.
Proof.
  simpl. destruct (JS.isWhiteSpace c) eqn:E; [ | reflexivity].
  intros H. exfalso.
  assert (Hlen : forall x, (List.length (JS.trimStart_list x)
                            <= List.length x)%nat).
  { induction x as [|a x IH]; simpl; [lia|].
    destruct (JS.isWhiteSpace a); simpl; lia. }
  pose proof (Hlen l) as Hl. rewrite H in Hl. simpl in Hl. lia.
Qed.

(** Cutting the last code unit off a trimmed text leaves its first one
    in place. *)
Lemma starts_with_minus_slice (s : string) :
  JS.starts_with_minus (list_ascii_of_string (JS.trim s)) = false ->
  JS.starts_with_minus
    (JS.trimStart_list (list_ascii_of_string (JS.slice_0_m1 (JS.trim s))))
  = false.
Proof.
  unfold JS.slice_0_m1, JS.trim.
  rewrite !list_ascii_of_string_of_list_ascii.
  pose proof (trimStart_trim_list (list_ascii_of_string s)) as Hfix.
  destruct (JS.trim_list (list_ascii_of_string s)) as [|c l]; [reflexivity|].
  apply trimStart_fixed_head in Hfix.
  destruct l as [|c' l]; [reflexivity|].
  cbn [removelast]. intros Hminus.
  rewrite (@trimStart_list_head c _ Hfix). exact Hminus.
Qed.

End ParseFloatSign.

Section CountedLemmas.

Local Open Scope Z_scope.

Lemma parseNumericValue_k_branch (value : string) :
  JS.endsWith (JS.trim (JS.toLowerCase value)) "k" = true ->
  parseNumericValue value
  = JS.Math_round
      (JS.mul (JS.parseFloat (JS.slice_0_m1 (JS.trim (JS.toLowerCase value))))
              (JS.of_Z 1000)).
Proof.
  intros Hk. unfold parseNumericValue.
  destruct (String.eqb_spec value EmptyString) as [->|_]; [discriminate Hk|].
  now rewrite Hk.
Qed.

Lemma parseNumericValue_counted (text : string) :
  counted text (parseNumericValue text).
Proof.
  split; [reflexivity | ]. cbv zeta.
  destruct (JS.endsWith (JS.trim (JS.toLowerCase text)) "k") eqn:Hk.
  - (* the text ends in k *)
    rewrite (parseNumericValue_k_branch text Hk).
    set (prefix := JS.parseFloat _).
    destruct (mul_1000 prefix) as (Hmnan & Hmneg).
    destruct (Math_round_facts (JS.mul prefix (JS.of_Z 1000)))
      as (Hrnan & Hrneg & Hrint).
    split; [ | split; [ | split; [discriminate | ]]].
    + intros Hn. apply Hrint. now rewrite <- Hrnan.
    + intros Hminus.
      assert (Hneg : JS.is_negative
                       (JS.Math_round (JS.mul prefix (JS.of_Z 1000))) = false).
      { apply Hrneg. rewrite Hmneg. apply parseFloat_sign.
        now apply starts_with_minus_slice. }
      split; [exact Hneg | ]. intros z. now apply to_Z_nonneg.
    + intros _ Hp. now rewrite Hrnan, Hmnan.
  - (* it does not *)
    destruct (parseNumericValue_integer_branch_facts text Hk)
      as (Hnan & Hint & Hneg & Hfail & Hdigits).
    split; [ | split; [ | split; [ | discriminate]]].
    + intros _. exact Hint.
    + exact Hneg.
    + intros _. auto.
Qed.

End CountedLemmas.

(** C3.  The normalizer maps the empty text, "0", "5", "1.2k", "2k" and
    "abc" to 0, 0, 5, 1200, 2000 and 0.  In general a text that ends in
    "k" or "K" is the text before that letter parsed as a float,
    multiplied by 1000 and rounded to the nearest integer, where rounding
    a number x that has a fraction gives the integer z with
    z <= x + 1/2 < z + 1; any other non-empty text is parsed as a base-10
    integer (with 0 when that gives a falsy number). *)
Theorem parseNumericValue_table_and_branches :
  parseNumericValue EmptyString = JS.of_Z 0 /\
  parseNumericValue "0" = JS.of_Z 0 /\
  parseNumericValue "5" = JS.of_Z 5 /\
  parseNumericValue "1.2k" = JS.of_Z 1200 /\
  parseNumericValue "2k" = JS.of_Z 2000 /\
  parseNumericValue "abc" = JS.of_Z 0 /\
  (forall (p : string) (c : ascii),
      c = "k"%char \/ c = "K"%char ->
      parseNumericValue (p ++ String c EmptyString)
      = JS.Math_round
          (JS.mul (JS.parseFloat (JS.toLowerCase p)) (JS.of_Z 1000))) /\
  (forall (s : bool) (m : positive) (e : Z),
      (Z.pos m < 2 ^ 53)%Z ->
      (e < 0)%Z ->
      exists z : Z,
        JS.to_Z (JS.Math_round (S754_finite s m e)) = Some z /\
        (2 * z * 2 ^ (- e) <= 2 * cond_Zopp s (Z.pos m) + 2 ^ (- e)
         < 2 * (z + 1) * 2 ^ (- e))%Z) /\
  (forall value : string,
      value <> EmptyString ->
      JS.endsWith (JS.trim (JS.toLowerCase value)) "k" = false ->
      parseNumericValue value
      = JS.lor (JS.parseInt (JS.trim (JS.toLowerCase value)) 10)
               (JS.of_Z 0)).
Proof.
  do 6 (split; [vm_compute; reflexivity | ]).
  split; [ | split].
  - exact parseNumericValue_snoc_k.
  - exact Math_round_nearest.
  - exact parseNumericValue_integer_branch.
Qed.

Lemma parseNumericValue_table_and_branches_witness :
  parseNumericValue "1.5K" = JS.of_Z 1500 /\
  parseNumericValue " 42 stars" = JS.of_Z 42.
Proof.
  destruct parseNumericValue_table_and_branches
    as (_ & _ & _ & _ & _ & _ & Hk & _ & Hint).
  split.
  - etransitivity; [exact (Hk "1.5" "K"%char (or_intror eq_refl)) | ].
    vm_compute; reflexivity.
  - rewrite (Hint " 42 stars"); [ | discriminate | ]; vm_compute; reflexivity.
Defined.

(** C4 as the spec words it does not hold: on "3,400" the result is
    not 0. *)
Lemma parseNumericValue_3_400_not_zero :
  parseNumericValue "3,400" <> JS.of_Z 0.
Proof. vm_compute. discriminate. Qed.

(** C4, amended.  On "3,400" integer parsing does not fail: [parseInt]
    reads the digits before the comma, and the normalizer yields 3. *)
Theorem parseNumericValue_3_400 :
  JS.parseInt "3,400" 10 = JS.of_Z 3 /\
  parseNumericValue "3,400" = JS.of_Z 3 /\
  JS.to_Z (parseNumericValue "3,400") = Some 3%Z.
Proof. repeat split; vm_compute; reflexivity. Qed.

(** C10.  There is a non-empty text ending in "k" whose prefix is not a
    float literal, "xk", on which the normalizer does not return 0 but
    NaN.  The fallback to 0 belongs to the integer branch only: whenever
    the prefix of a text ending in k or K parses to NaN the result is
    NaN, whereas a text of the other branch on which [parseInt] gives
    NaN yields 0. *)
Theorem parseNumericValue_k_branch_propagates_NaN :
  (exists value : string,
      value <> EmptyString /\
      JS.endsWith value "k" = true /\
      JS.parseFloat (JS.slice_0_m1 value) = JS.NaN /\
      parseNumericValue value = JS.NaN /\
      parseNumericValue value <> JS.of_Z 0) /\
  (forall (p : string) (c : ascii),
      c = "k"%char \/ c = "K"%char ->
      JS.parseFloat (JS.toLowerCase p) = JS.NaN ->
      parseNumericValue (p ++ String c EmptyString) = JS.NaN) /\
  (forall value : string,
      JS.endsWith (JS.trim (JS.toLowerCase value)) "k" = false ->
      JS.parseInt (JS.trim (JS.toLowerCase value)) 10 = JS.NaN ->
      parseNumericValue value = JS.of_Z 0).
Proof.
  split; [ | split].
  - exists "xk".
    split; [discriminate | ].
    do 3 (split; [vm_compute; reflexivity | ]).
    vm_compute. discriminate.
  - intros p c Hc Hnan.
    rewrite (parseNumericValue_snoc_k p Hc), Hnan. reflexivity.
  - intros value Hk Hnan. unfold parseNumericValue.
    destruct (String.eqb value EmptyString); [reflexivity|].
    rewrite Hk, Hnan. reflexivity.
Qed.

Lemma parseNumericValue_k_branch_propagates_NaN_witness :
  parseNumericValue "n/aK" = JS.NaN /\ parseNumericValue "n/a" = JS.of_Z 0.
Proof.
  destruct parseNumericValue_k_branch_propagates_NaN as (_ & Hk & Hint).
  split.
  - apply (Hk "n/a" "K"%char (or_intror eq_refl)). vm_compute; reflexivity.
  - apply (Hint "n/a"); vm_compute; reflexivity.
Defined.

(* ================================================================== *)
(** * Properties of the extractor *)
(* ================================================================== *)

Section PromiseLemmas.

Context {A B : Type}.

Lemma Promise_all_Forall2 (ps : list (Exc A)) (rs : list A) :
  Promise_all ps = Return rs -> Forall2 (fun p r => p = Return r) ps rs.
Proof.
  revert rs. induction ps as [|p ps IH]; intros rs H; simpl in H.
  - injection H as <-. constructor.
  - destruct p as [a|e]; [ | discriminate].
    destruct (Promise_all ps) as [l|e]; [ | discriminate].
    injection H as <-. constructor; [reflexivity | now apply IH].
Qed.

Lemma Promise_all_fulfilled (f : B -> Exc A) (l : list B) :
  (forall x, exists r, f x = Return r) ->
  exists rs, Promise_all (map f l) = Return rs /\ List.length rs = List.length l.
Proof.
  intros Hf. induction l as [|x l (rs & Hrs & Hlen)]; simpl.
  - exists []. split; reflexivity.
  - destruct (Hf x) as (r & Hr). rewrite Hr, Hrs.
    exists (r :: rs). split; [reflexivity | simpl; now rewrite Hlen].
Qed.

Lemma Forall2_map_l (f : B -> Exc A) (P : A -> Prop) (l : list B)
      (rs : list A) :
  (forall x r, f x = Return r -> P r) ->
  Forall2 (fun p r => p = Return r) (map f l) rs -> Forall P rs.
Proof.
  intros HP. revert rs. induction l as [|x l IH]; intros rs H; simpl in H.
  - inversion H. constructor.
  - inversion H as [|p r ps rs' Hp Hrest]; subst.
    constructor; [now apply (HP x) | now apply IH].
Qed.

End PromiseLemmas.

Section ExtractorLemmas.

Context {cheerio : Cheerio}.
Variable net : Network.

Lemma loadHTML_retrieved (url : string) :
  loadHTML net url
  = match retrieved net url with
    | Some dollar => Return dollar
    | None => Throw (MkError ("Failed to load URL: " ++ url))
    end.
Proof.
  unfold loadHTML, retrieved, fetchWithTimeout.
  destruct (net url) as [response|e]; simpl; [ | reflexivity].
  destruct (ok response); simpl; [ | reflexivity].
  destruct (text response) as [html|e]; simpl; [ | reflexivity].
  now destruct (load html).
Qed.

Lemma loadHTML_error (url : string) (e : Error) :
  loadHTML net url = Throw e -> e = MkError ("Failed to load URL: " ++ url).
Proof.
  unfold loadHTML, try_catch.
  destruct (bind _ _); intros H; [discriminate | now injection H].
Qed.

Lemma getRepoWebsite_fulfilled (repoUrl : string) :
  exists w, getRepoWebsite net repoUrl = Return w.
Proof.
  unfold getRepoWebsite.
  destruct (loadHTML net repoUrl) as [d|e]; simpl; eauto.
Qed.

Lemma getRepoWebsite_absent (repoUrl : string) (e : Error) :
  loadHTML net repoUrl = Throw e -> getRepoWebsite net repoUrl = Return None.
Proof. intros H. unfold getRepoWebsite. now rewrite H. Qed.

(** A pinned item always becomes a record; only [website] depends on the
    network. *)
Lemma pinnedItem_fulfilled (dollar : Doc) (username : string) (item : Item) :
  exists r w,
    pinnedItem net dollar username item = Return r /\
    getRepoWebsite net (link r) = Return w /\
    website r = w /\
    owner r = username /\
    link r = "https://github.com/" ++ owner r ++ "/" ++ repo r /\
    image r = "https://opengraph.githubassets.com/1/"
              ++ owner r ++ "/" ++ repo r.
Proof.
  unfold pinnedItem.
  match goal with
  | |- context [getRepoWebsite net ?u] =>
      destruct (getRepoWebsite_fulfilled u) as (w & Hw); rewrite Hw
  end.
  simpl. eexists; exists w. split; [reflexivity | ]. simpl.
  repeat split; assumption.
Qed.

Lemma pinnedItem_with_website (net' : Network) (dollar : Doc)
      (username : string) (item : Item) (r r' : PinnedRepo) :
  pinnedItem net dollar username item = Return r ->
  pinnedItem net' dollar username item = Return r' ->
  r = with_website r' (website r).
Proof.
  unfold pinnedItem.
  destruct (getRepoWebsite net _) as [w|e]; simpl;
    [ | intros H; discriminate H].
  destruct (getRepoWebsite net' _) as [w'|e']; simpl;
    [ | intros _ H'; discriminate H'].
  intros H H'. injection H as <-. injection H' as <-. reflexivity.
Qed.

Lemma getPinnedRepos_loaded (username : string) (dollar : Doc) :
  loadHTML net (profile_url username) = Return dollar ->
  exists repos,
    getPinnedRepos net username = Return repos /\
    List.length repos = List.length (toArray dollar pinned_selector) /\
    Forall2 (fun item r => pinnedItem net dollar username item = Return r)
            (toArray dollar pinned_selector) repos.
Proof.
  intros Hload. unfold getPinnedRepos.
  fold (profile_url username). rewrite Hload. simpl.
  destruct (toArray dollar pinned_selector) as [|item items] eqn:Hitems.
  - exists []. repeat split; constructor.
  - destruct (Promise_all_fulfilled (pinnedItem net dollar username)
                (item :: items)) as (rs & Hrs & Hlen).
    { intros x. destruct (pinnedItem_fulfilled dollar username x)
        as (r & w & Hr & _). eauto. }
    rewrite Hrs. simpl. exists rs. repeat split; [exact Hlen | ].
    apply Promise_all_Forall2 in Hrs.
    clear -Hrs. revert Hrs. generalize (item :: items). intros l.
    revert rs. induction l as [|x l IH]; intros rs H; simpl in H;
      inversion H; subst; constructor; auto.
Qed.

Lemma getPinnedRepos_rejected (username : string) (e : Error) :
  getPinnedRepos net username = Throw e <->
  loadHTML net (profile_url username) = Throw e.
Proof.
  destruct (loadHTML net (profile_url username)) as [d|e'] eqn:Hload.
  - destruct (getPinnedRepos_loaded username Hload) as (rs & Hrs & _).
    rewrite Hrs. split; discriminate.
  - unfold getPinnedRepos. fold (profile_url username). rewrite Hload.
    simpl. split; intros H; injection H as ->; reflexivity.
Qed.

End ExtractorLemmas.

(** C5.  When the profile page of a user is retrieved and holds no
    pinned-items markup, [getPinnedRepos] returns the empty list; whenever
    the page is retrieved it returns a list; and it raises an error only
    when [loadHTML] of the profile page raises, with that error, which
    happens exactly when the page cannot be retrieved. *)
Theorem getPinnedRepos_empty_is_not_an_error
        (cheerio : Cheerio) (net : Network) (username : string) :
  (forall dollar : Doc,
      loadHTML net (profile_url username) = Return dollar ->
      toArray dollar pinned_selector = [] ->
      getPinnedRepos net username = Return []) /\
  (forall dollar : Doc,
      loadHTML net (profile_url username) = Return dollar ->
      exists repos, getPinnedRepos net username = Return repos) /\
  (forall e : Error,
      getPinnedRepos net username = Throw e ->
      loadHTML net (profile_url username) = Throw e /\
      e = MkError ("Failed to load URL: " ++ profile_url username) /\
      retrieved net (profile_url username) = None) /\
  (retrieved net (profile_url username) = None ->
   getPinnedRepos net username
   = Throw (MkError ("Failed to load URL: " ++ profile_url username))).
Proof.
  split; [ | split; [ | split]].
  - intros dollar Hload Hnone.
    destruct (getPinnedRepos_loaded net username Hload)
      as (repos & Hrepos & Hlen & _).
    rewrite Hnone in Hlen. destruct repos; [exact Hrepos | discriminate].
  - intros dollar Hload.
    destruct (getPinnedRepos_loaded net username Hload) as (repos & H & _).
    now exists repos.
  - intros e He. apply getPinnedRepos_rejected in He.
    split; [exact He | split; [now apply loadHTML_error in He | ]].
    rewrite loadHTML_retrieved in He.
    now destruct (retrieved net (profile_url username)).
  - intros Hnone. apply getPinnedRepos_rejected.
    now rewrite loadHTML_retrieved, Hnone.
Qed.

Lemma getPinnedRepos_empty_is_not_an_error_witness :
  @getPinnedRepos Example.toy_cheerio Example.toy_net "nobody" = Return [] /\
  @loadHTML Example.toy_cheerio Example.net_down (profile_url "octocat")
  = Throw (MkError "Failed to load URL: https://github.com/octocat").
Proof.
  split.
  - apply (proj1 (getPinnedRepos_empty_is_not_an_error
                    Example.toy_cheerio Example.toy_net "nobody")
             Example.empty_doc); reflexivity.
  - apply (proj1 (proj2 (proj2 (getPinnedRepos_empty_is_not_an_error
                                  Example.toy_cheerio Example.net_down
                                  "octocat")))).
    reflexivity.
Defined.

(** C6.  [getRepoWebsite] never raises: for every repository URL it
    returns a value, the trimmed href found in the page when the page
    is retrieved, and absent when the page cannot be loaded.  Within [getPinnedRepos] such a failure neither fails nor
    removes the record of the item: the item still yields its record,
    which is the record any other network would give with only the
    [website] field absent, and the list has one record per pinned
    item. *)
Theorem getRepoWebsite_never_raises (cheerio : Cheerio) (net : Network) :
  (forall repoUrl : string, exists w, getRepoWebsite net repoUrl = Return w) /\
  (forall repoUrl : string,
      getRepoWebsite net repoUrl
      = Return match retrieved net repoUrl with
               | Some dollar =>
                   option_map JS.trim (first_attr dollar website_selector "href")
               | None => None
               end) /\
  (forall (repoUrl : string) (e : Error),
      loadHTML net repoUrl = Throw e ->
      getRepoWebsite net repoUrl = Return None) /\
  (forall (dollar : Doc) (username : string) (item : Item),
      exists r,
        pinnedItem net dollar username item = Return r /\
        forall e : Error,
          loadHTML net (link r) = Throw e ->
          website r = None /\
          forall (net' : Network) (r' : PinnedRepo),
            pinnedItem net' dollar username item = Return r' ->
            r = with_website r' None) /\
  (forall (username : string) (dollar : Doc),
      loadHTML net (profile_url username) = Return dollar ->
      exists repos,
        getPinnedRepos net username = Return repos /\
        List.length repos = List.length (toArray dollar pinned_selector)).
Proof.
  split; [ | split; [ | split; [ | split]]].
  - apply getRepoWebsite_fulfilled.
  - intros repoUrl. unfold getRepoWebsite. rewrite loadHTML_retrieved.
    now destruct (retrieved net repoUrl).
  - apply getRepoWebsite_absent.
  - intros dollar username item.
    destruct (pinnedItem_fulfilled net dollar username item)
      as (r & w & Hr & Hw & Hweb & _).
    exists r. split; [exact Hr | ].
    intros e He. rewrite (getRepoWebsite_absent net _ He) in Hw.
    injection Hw as <-. split; [exact Hweb | ].
    intros net' r' Hr'. rewrite <- Hweb.
    exact (pinnedItem_with_website net net' dollar username item Hr Hr').
  - intros username dollar Hload.
    destruct (getPinnedRepos_loaded net username Hload)
      as (repos & H & Hlen & _).
    exists repos. now split.
Qed.

Lemma getRepoWebsite_never_raises_witness :
  @getRepoWebsite Example.toy_cheerio Example.toy_net "https://github.com/octocat/ledger"
  = Return None /\
  exists repos,
    @getPinnedRepos Example.toy_cheerio Example.toy_net "octocat" = Return repos /\
    List.length repos = 2.
Proof.
  destruct (getRepoWebsite_never_raises Example.toy_cheerio Example.toy_net)
    as (_ & _ & Habsent & _ & Hlist).
  split.
  - apply (Habsent "https://github.com/octocat/ledger"
                   (MkError "Failed to load URL: https://github.com/octocat/ledger")).
    reflexivity.
  - apply (Hlist "octocat" Example.profile_doc). reflexivity.
Defined.

(** C7.  In every list [getPinnedRepos] returns, every record has
    [link] equal to "https://github.com/{owner}/{repo}" and [image] equal
    to "https://opengraph.githubassets.com/1/{owner}/{repo}": both are
    present and are functions of [owner] and [repo] alone. *)
Theorem link_and_image_are_functions_of_owner_and_repo
        (cheerio : Cheerio) (net : Network) (username : string)
        (repos : list PinnedRepo) :
  getPinnedRepos net username = Return repos ->
  Forall (fun r =>
            owner r = username /\
            link r = "https://github.com/" ++ owner r ++ "/" ++ repo r /\
            image r = "https://opengraph.githubassets.com/1/"
                      ++ owner r ++ "/" ++ repo r)
         repos.
Proof.
  intros H.
  destruct (loadHTML net (profile_url username)) as [dollar|e] eqn:Hload.
  - destruct (getPinnedRepos_loaded net username Hload)
      as (repos' & H' & _ & Hall).
    rewrite H in H'. injection H' as ->. clear H.
    induction Hall as [|item r items rs Hr _ IH]; constructor; [ | exact IH].
    destruct (pinnedItem_fulfilled net dollar username item)
      as (r0 & w & Hr0 & _ & _ & Hown & Hlink & Himg).
    rewrite Hr in Hr0. injection Hr0 as <-. now repeat split.
  - apply getPinnedRepos_rejected in Hload. rewrite H in Hload. discriminate.
Qed.

Lemma link_and_image_are_functions_of_owner_and_repo_witness :
  exists repos,
    @getPinnedRepos Example.toy_cheerio Example.toy_net "octocat" = Return repos /\
    map link repos = [ "https://github.com/octocat/hello";
                       "https://github.com/octocat/ledger" ] /\
    Forall (fun r =>
              owner r = "octocat" /\
              link r = "https://github.com/" ++ owner r ++ "/" ++ repo r /\
              image r = "https://opengraph.githubassets.com/1/"
                        ++ owner r ++ "/" ++ repo r)
           repos.
Proof.
  eexists. split; [vm_compute; reflexivity | ].
  split; [reflexivity | ].
  apply (link_and_image_are_functions_of_owner_and_repo
           Example.toy_cheerio Example.toy_net "octocat").
  vm_compute; reflexivity.
Defined.

Section CountTheorems.

Context {cheerio : Cheerio}.
Variable net : Network.

Lemma pinnedItem_counts (dollar : Doc) (username : string) (item : Item)
      (r : PinnedRepo) :
  pinnedItem net dollar username item = Return r ->
  stars r
  = parseNumericValue (JS.trim (find_text dollar item stargazers_selector)) /\
  forks r
  = parseNumericValue (JS.trim (find_text dollar item forks_selector)).
Proof.
  unfold pinnedItem.
  destruct (getRepoWebsite net _) as [w|e]; simpl;
    [ | intros H; discriminate H].
  intros H. injection H as <-. split; reflexivity.
Qed.

End CountTheorems.

(** C8 as the spec words it does not hold: octocat's second pinned item
    shows "-5" stars and "xk" forks; the list is returned with stars -5,
    which is negative, and forks NaN, which is not 0. *)
Lemma stars_and_forks_not_always_natural :
  exists (repos : list PinnedRepo) (r : PinnedRepo),
    @getPinnedRepos Example.toy_cheerio Example.toy_net "octocat"
    = Return repos /\
    In r repos /\
    JS.to_Z (stars r) = Some (-5)%Z /\
    ~ natural (stars r) /\
    forks r = JS.NaN /\
    ~ natural (forks r).
Proof.
  eexists. eexists. split; [vm_compute; reflexivity | ].
  split; [right; left; reflexivity | ].
  split; [vm_compute; reflexivity | ].
  split; [ | split; [reflexivity | ]].
  - intros (z & Hz & Hpos). vm_compute in Hz. injection Hz as <-. lia.
  - intros (z & Hz & _). discriminate Hz.
Qed.

(** C8, amended.  In every list [getPinnedRepos] returns, the stars and
    forks of a record are what the normalizer reads in the trimmed text
    of the item's stargazers and forks links.  Unless the field is NaN
    it is an integer, or an infinity when the number exceeds the range;
    it is not negative unless the text starts with a minus sign.  When
    the text, lower-cased and trimmed, does not end in "k", the field is
    never NaN, it is 0 when the text has no leading digits for
    [parseInt], and it is exactly the number written when the text is a
    run of at most 15 decimal digits.  When the text ends in "k", the
    field is not NaN provided the text before the "k" parses as a
    float. *)
Theorem stars_and_forks_are_counted
        (cheerio : Cheerio) (net : Network) (username : string)
        (repos : list PinnedRepo) :
  getPinnedRepos net username = Return repos ->
  exists dollar : Doc,
    loadHTML net (profile_url username) = Return dollar /\
    Forall2
      (fun item r =>
         counted (JS.trim (find_text dollar item stargazers_selector))
                 (stars r) /\
         counted (JS.trim (find_text dollar item forks_selector))
                 (forks r))
      (toArray dollar pinned_selector) repos.
Proof.
  intros H.
  destruct (loadHTML net (profile_url username)) as [dollar|e] eqn:Hload.
  - exists dollar. split; [reflexivity | ].
    destruct (getPinnedRepos_loaded net username Hload)
      as (repos' & H' & _ & Hall).
    rewrite H in H'. injection H' as ->. clear H.
    induction Hall as [|item r items rs Hr _ IH]; constructor; [ | exact IH].
    destruct (pinnedItem_counts net dollar username item Hr) as (-> & ->).
    split; apply parseNumericValue_counted.
  - apply getPinnedRepos_rejected in Hload. rewrite H in Hload. discriminate.
Qed.

Lemma stars_and_forks_are_counted_witness :
  exists dollar : Example.ToyDoc,
    Forall2
      (fun item r =>
         counted (JS.trim (Example.ti_stars item)) (stars r) /\
         counted (JS.trim (Example.ti_forks item)) (forks r))
      (Example.td_items dollar) Example.octocat_repos.
Proof.
  destruct (@stars_and_forks_are_counted
              Example.toy_cheerio Example.toy_net "octocat"
              Example.octocat_repos)
    as (dollar & _ & Hall).
  - vm_compute; reflexivity.
  - exists dollar. exact Hall.
Defined.

(* ================================================================== *)
(** * Properties of the cache *)
(* ================================================================== *)

Module LRUFacts.

Section Facts.

Variable V : Type.
Implicit Types (c : LRU.t V) (k : string) (l : list (string * V)).



Lemma has_lookup c k :
  LRU.has c k = true <-> exists v, LRU.lookup k (LRU.entries c) = Some v.
Proof.
  unfold LRU.has. destruct (LRU.lookup k (LRU.entries c)) as [v|].
  - split; eauto.
  - split; [discriminate | intros (v & H); discriminate].
Qed.










(** [get] returns what [lookup] finds. *)
Lemma get_lookup c k : fst (LRU.get c k) = LRU.lookup k (LRU.entries c).
Proof.
  unfold LRU.get. now destruct (LRU.lookup k (LRU.entries c)).
Qed.




End Facts.

End LRUFacts.

(* ================================================================== *)
(** * Properties of the request handler *)
(* ================================================================== *)

Section HandlerLemmas.

Context {cheerio : Cheerio}.

(** The branch of lines 168-171: a forced refresh, or no entry. *)
Lemma handler_fetches (net : Network) (c : Cache) (request : Request)
      (username : string) (refresh : bool) :
  asks_for request username refresh ->
  refresh = true \/ LRU.has c username = false ->
  handler net c request
  = match getPinnedRepos net username with
    | Return result =>
        (json_response (Some result), LRU.set c username result, None)
    | Throw error => (error_response error, c, None)
    end.
Proof.
  intros (Hm & Hu & Hne & Hr) Hcase. unfold handler.
  rewrite Hm, Hu, Hr.
  destruct (String.eqb_spec username EmptyString) as [E|_]; [contradiction|].
  assert (Hcond : (negb refresh && LRU.has c username)%bool = false).
  { destruct Hcase as [-> | ->]; [reflexivity | apply andb_false_r]. }
  rewrite Hcond. reflexivity.
Qed.

(** The branch of lines 163-167: an entry, and no forced refresh. *)
Lemma handler_serves_cached (net : Network) (c : Cache) (request : Request)
      (username : string) :
  asks_for request username false ->
  LRU.has c username = true ->
  handler net c request
  = (json_response (LRU.lookup username (LRU.entries c)),
     snd (LRU.get c username),
     Some (mkRefresh username (getPinnedRepos net username))).
Proof.
  intros (Hm & Hu & Hne & Hr) Hhas. unfold handler.
  rewrite Hm, Hu, Hr.
  destruct (String.eqb_spec username EmptyString) as [E|_]; [contradiction|].
  rewrite Hhas. simpl andb. cbv iota.
  rewrite <- LRUFacts.get_lookup.
  destruct (LRU.get c username) as [result cache1]. reflexivity.
Qed.





Lemma reachable_run (s : Server) (evs : list Event) :
  reachable s -> reachable (fst (run s evs)).
Proof.
  revert s. induction evs as [|ev evs IH]; intros s Hs; simpl; [exact Hs|].
  pose proof (reachable_step ev Hs) as H1.
  destruct (step s ev) as [s1 out]. specialize (IH s1 H1).
  destruct (run s1 evs) as [s2 outs]. exact IH.
Qed.

End HandlerLemmas.

(** C1.  Let the cache hold [v] for a user name.  A request with
    refresh=true whose fetch fails is answered with the error (status
    500, the error's message) and changes nothing in the process, the
    entry included; a refresh in flight that fails leaves the cache as it
    is when it settles.  In both cases the next request for that user
    name without refresh is answered with [v]. *)
Theorem failed_fetch_keeps_cached_value
        (cheerio : Cheerio) (s : Server) (username : string)
        (v : list PinnedRepo) :
  LRU.lookup username (LRU.entries (cache s)) = Some v ->
  (forall (net net' : Network) (request request' : Request) (e : Error),
      asks_for request username true ->
      getPinnedRepos net username = Throw e ->
      asks_for request' username false ->
      step s (Incoming net request) = (s, Some (error_response e)) /\
      snd (run s [Incoming net request; Incoming net' request'])
      = [error_response e; json_response (Some v)]) /\
  (forall (i : nat) (r : Refresh) (e : Error) (net' : Network)
          (request' : Request),
      nth_error (in_flight s) i = Some r ->
      refresh_outcome r = Throw e ->
      asks_for request' username false ->
      cache (fst (step s (Settled i))) = cache s /\
      snd (run s [Settled i; Incoming net' request'])
      = [json_response (Some v)]).
Proof.
  intros Hv.
  assert (Hhas : LRU.has (cache s) username = true)
    by (apply LRUFacts.has_lookup; eauto).
  split.
  - intros net net' request request' e Hreq Hfail Hreq'.
    assert (Hstep : step s (Incoming net request)
                    = (s, Some (error_response e))).
    { simpl. rewrite (handler_fetches net (cache s) Hreq (or_introl eq_refl)).
      rewrite Hfail. rewrite app_nil_r. now destruct s. }
    split; [exact Hstep | ].
    cbn [run]. rewrite Hstep. cbn [step].
    rewrite (handler_serves_cached net' (cache s) Hreq' Hhas), Hv.
    reflexivity.
  - intros i r e net' request' Hi Hfail Hreq'.
    assert (Hcache : cache (fst (step s (Settled i))) = cache s).
    { simpl. rewrite Hi. simpl. unfold settle. now rewrite Hfail. }
    split; [exact Hcache | ].
    cbn [run]. destruct (step s (Settled i)) as [s1 out] eqn:Hstep.
    assert (out = None) as ->.
    { simpl in Hstep. rewrite Hi in Hstep. now injection Hstep. }
    simpl in Hcache. cbn [step]. rewrite Hcache.
    rewrite (handler_serves_cached net' (cache s) Hreq' Hhas), Hv.
    reflexivity.
Qed.

Lemma failed_fetch_keeps_cached_value_witness :
  snd (@run Example.toy_cheerio Example.warm
           [Incoming Example.net_down (Example.GET "octocat" true);
            Incoming Example.net_down (Example.GET "octocat" false)])
  = [error_response
       (MkError "Failed to load URL: https://github.com/octocat");
     json_response (Some Example.octocat_repos)]
  /\
  snd (@run Example.toy_cheerio Example.warm_failing
           [Settled 0; Incoming Example.net_down (Example.GET "octocat" false)])
  = [json_response (Some Example.octocat_repos)].
Proof.
  split.
  - apply (proj1 (failed_fetch_keeps_cached_value
                    Example.toy_cheerio Example.warm "octocat" eq_refl)).
    + solve_asks_for.
    + reflexivity.
    + solve_asks_for.
  - apply (proj2 (failed_fetch_keeps_cached_value
                    Example.toy_cheerio Example.warm_failing "octocat" eq_refl)
             0%nat
             (mkRefresh "octocat"
                (Throw (MkError
                   "Failed to load URL: https://github.com/octocat")))
             (MkError "Failed to load URL: https://github.com/octocat")).
    + reflexivity.
    + reflexivity.
    + solve_asks_for.
Defined.

(** C2.  A request without refresh for a user name that has a cache
    entry is answered with exactly the cached list.  The answer is the
    same whatever the network does: the fetch that the request starts is
    only left in flight, and the answer has been given before it
    settles. *)
Theorem cached_value_is_served
        (cheerio : Cheerio) (s : Server) (net : Network) (request : Request)
        (username : string) :
  asks_for request username false ->
  LRU.has (cache s) username = true ->
  exists v,
    LRU.lookup username (LRU.entries (cache s)) = Some v /\
    fst (fst (handler net (cache s) request)) = json_response (Some v) /\
    http_body (fst (fst (handler net (cache s) request))) = BodyJson (Some v) /\
    (forall net' : Network,
        fst (fst (handler net' (cache s) request)) = json_response (Some v)) /\
    snd (step s (Incoming net request)) = Some (json_response (Some v)) /\
    in_flight (fst (step s (Incoming net request)))
    = (in_flight s
         ++ [mkRefresh username (getPinnedRepos net username)])%list.
Proof.
  intros Hreq Hhas.
  destruct (proj1 (LRUFacts.has_lookup (cache s) username) Hhas) as (v & Hv).
  exists v. split; [exact Hv | ].
  assert (H : forall n, handler n (cache s) request
              = (json_response (Some v), snd (LRU.get (cache s) username),
                 Some (mkRefresh username (getPinnedRepos n username)))).
  { intros n. rewrite (handler_serves_cached n (cache s) Hreq Hhas).
    now rewrite Hv. }
  repeat split.
  - now rewrite H.
  - now rewrite H.
  - intros net'. now rewrite H.
  - simpl. now rewrite H.
  - simpl. now rewrite H.
Qed.

Lemma cached_value_is_served_witness :
  exists v,
    LRU.lookup "octocat" (LRU.entries (cache Example.warm)) = Some v /\
    fst (fst (@handler Example.toy_cheerio Example.net_down (cache Example.warm)
                      (Example.GET "octocat" false)))
    = json_response (Some v) /\
    v = Example.octocat_repos.
Proof.
  destruct (cached_value_is_served Example.toy_cheerio Example.warm
              Example.net_down (request := Example.GET "octocat" false)
              (username := "octocat"))
    as (v & Hv & Hresp & _).
  - solve_asks_for.
  - reflexivity.
  - exists v. repeat split; [exact Hv | exact Hresp | ].
    vm_compute in Hv. injection Hv as <-. reflexivity.
Defined.

(* ================================================================== *)
(** * Further properties of the extractor *)
(* ================================================================== *)

Section TrimLemmas.

Lemma trimEnd_list_idem (l : list ascii) :
  JS.trimEnd_list (JS.trimEnd_list l) = JS.trimEnd_list l.
Proof.
  unfold JS.trimEnd_list. now rewrite rev_involutive, trimStart_list_idem.
Qed.

Lemma trim_list_idem (l : list ascii) :
  JS.trim_list (JS.trim_list l) = JS.trim_list l.
Proof.
  unfold JS.trim_list at 1. rewrite trimStart_trim_list.
  unfold JS.trim_list. apply trimEnd_list_idem.
Qed.

(** Trimming a trimmed string changes nothing. *)
Lemma trim_idem (s : string) : JS.trim (JS.trim s) = JS.trim s.
Proof.
  unfold JS.trim. rewrite list_ascii_of_string_of_list_ascii.
  now rewrite trim_list_idem.
Qed.

Lemma or_undefined_Some (s d : string) :
  or_undefined s = Some d -> d = s /\ d <> EmptyString.
Proof.
  unfold or_undefined. destruct (String.eqb_spec s EmptyString) as [->|Hne];
    [discriminate|].
  intros H. injection H as <-. now split.
Qed.

End TrimLemmas.

Section FieldLemmas.

Context {cheerio : Cheerio}.
Variable net : Network.

(** The fields of the record of a pinned item that are read in the
    profile page. *)
Lemma pinnedItem_fields (dollar : Doc) (username : string) (item : Item)
      (r : PinnedRepo) :
  pinnedItem net dollar username item = Return r ->
  repo r = JS.trim (find_text dollar item repo_selector) /\
  description r
  = or_undefined (JS.trim (find_text dollar item description_selector)) /\
  language r
  = or_undefined (JS.trim (find_next_text dollar item language_selector)) /\
  languageColor r
  = match find_css dollar item language_selector "background-color" with
    | Some c => or_undefined c
    | None => None
    end /\
  getRepoWebsite net (link r) = Return (website r).
Proof.
  unfold pinnedItem.
  destruct (getRepoWebsite net _) as [w|e] eqn:Hw; simpl;
    [ | intros H; discriminate H].
  intros H. injection H as <-. simpl. repeat split. exact Hw.
Qed.

Lemma getRepoWebsite_trimmed (repoUrl w : string) :
  getRepoWebsite net repoUrl = Return (Some w) -> JS.trim w = w.
Proof.
  unfold getRepoWebsite. rewrite loadHTML_retrieved.
  destruct (retrieved net repoUrl) as [dollar|]; simpl; [ | discriminate].
  destruct (first_attr dollar website_selector "href") as [h|]; simpl;
    [ | discriminate].
  intros H. injection H as <-. apply trim_idem.
Qed.

End FieldLemmas.

(** X7.  The list that [getPinnedRepos] returns follows the pinned items
    of the profile page one by one and in their order: the i-th record
    has the trimmed texts of the i-th item as its repository name, its
    description and its language, an empty description or language being
    left out. *)
Theorem records_follow_the_pinned_items
        (cheerio : Cheerio) (net : Network) (username : string)
        (repos : list PinnedRepo) :
  getPinnedRepos net username = Return repos ->
  exists dollar : Doc,
    loadHTML net (profile_url username) = Return dollar /\
    map repo repos
    = map (fun item => JS.trim (find_text dollar item repo_selector))
          (toArray dollar pinned_selector) /\
    map description repos
    = map (fun item =>
             or_undefined
               (JS.trim (find_text dollar item description_selector)))
          (toArray dollar pinned_selector) /\
    map language repos
    = map (fun item =>
             or_undefined
               (JS.trim (find_next_text dollar item language_selector)))
          (toArray dollar pinned_selector).
Proof.
  intros H.
  destruct (loadHTML net (profile_url username)) as [dollar|e] eqn:Hload.
  - exists dollar. split; [reflexivity | ].
    destruct (getPinnedRepos_loaded net username Hload)
      as (repos' & H' & _ & Hall).
    rewrite H in H'. injection H' as ->. clear H.
    induction Hall as [|item r items rs Hr _ (IH1 & IH2 & IH3)];
      [repeat split | ].
    destruct (pinnedItem_fields net dollar username item Hr)
      as (H1 & H2 & H3 & _).
    cbn [map]. rewrite H1, H2, H3, IH1, IH2, IH3. repeat split.
  - apply getPinnedRepos_rejected in Hload. rewrite H in Hload. discriminate.
Qed.

Lemma records_follow_the_pinned_items_witness :
  exists dollar : Example.ToyDoc,
    map repo Example.octocat_repos
    = map (fun item => JS.trim (Example.ti_repo item)) (Example.td_items dollar).
Proof.
  destruct (@records_follow_the_pinned_items
              Example.toy_cheerio Example.toy_net "octocat"
              Example.octocat_repos)
    as (dollar & _ & Hrepo & _).
  - vm_compute; reflexivity.
  - exists dollar. exact Hrepo.
Defined.

(** X8.  In every record that [getPinnedRepos] returns the repository
    name is trimmed, and an optional field that is present is never the
    empty string where the code writes [|| undefined]: a description or
    a language that is present is non-empty and trimmed, a language
    colour that is present is non-empty.  A website that is present is
    trimmed. *)
Theorem present_fields_are_trimmed_and_not_empty
        (cheerio : Cheerio) (net : Network) (username : string)
        (repos : list PinnedRepo) :
  getPinnedRepos net username = Return repos ->
  Forall
    (fun r =>
       JS.trim (repo r) = repo r /\
       (forall d, description r = Some d ->
                  d <> EmptyString /\ JS.trim d = d) /\
       (forall l, language r = Some l ->
                  l <> EmptyString /\ JS.trim l = l) /\
       (forall c, languageColor r = Some c -> c <> EmptyString) /\
       (forall w, website r = Some w -> JS.trim w = w))
    repos.
Proof.
  intros H.
  destruct (loadHTML net (profile_url username)) as [dollar|e] eqn:Hload.
  - destruct (getPinnedRepos_loaded net username Hload)
      as (repos' & H' & _ & Hall).
    rewrite H in H'. injection H' as ->. clear H.
    induction Hall as [|item r items rs Hr _ IH]; constructor; [ | exact IH].
    destruct (pinnedItem_fields net dollar username item Hr)
      as (H1 & H2 & H3 & H4 & H5).
    split; [rewrite H1; apply trim_idem | ].
    split; [ | split; [ | split]].
    + intros d Hd. rewrite H2 in Hd.
      apply or_undefined_Some in Hd as (-> & Hne).
      split; [exact Hne | apply trim_idem].
    + intros l Hl. rewrite H3 in Hl.
      apply or_undefined_Some in Hl as (-> & Hne).
      split; [exact Hne | apply trim_idem].
    + intros c Hc. rewrite H4 in Hc.
      destruct (find_css dollar item language_selector "background-color");
        [ | discriminate].
      now apply or_undefined_Some in Hc as (_ & Hne).
    + intros w Hw. rewrite Hw in H5.
      exact (getRepoWebsite_trimmed net _ H5).
  - apply getPinnedRepos_rejected in Hload. rewrite H in Hload. discriminate.
Qed.

Lemma present_fields_are_trimmed_and_not_empty_witness :
  Forall
    (fun r =>
       JS.trim (repo r) = repo r /\
       (forall d, description r = Some d ->
                  d <> EmptyString /\ JS.trim d = d) /\
       (forall l, language r = Some l ->
                  l <> EmptyString /\ JS.trim l = l) /\
       (forall c, languageColor r = Some c -> c <> EmptyString) /\
       (forall w, website r = Some w -> JS.trim w = w))
    Example.octocat_repos.
Proof.
  apply (@present_fields_are_trimmed_and_not_empty
           Example.toy_cheerio Example.toy_net "octocat").
  vm_compute; reflexivity.
Defined.

(** X9.  The pages of the repositories decide the [website] fields and
    nothing else: two networks on which the profile page loads to the
    same document give lists that are equal once the websites are set
    aside. *)
Theorem only_website_depends_on_repository_pages
        (cheerio : Cheerio) (net net' : Network) (username : string)
        (repos : list PinnedRepo) :
  loadHTML net' (profile_url username) = loadHTML net (profile_url username) ->
  getPinnedRepos net username = Return repos ->
  exists repos',
    getPinnedRepos net' username = Return repos' /\
    map (fun r => with_website r None) repos'
    = map (fun r => with_website r None) repos.
Proof.
  intros Hsame H.
  destruct (loadHTML net (profile_url username)) as [dollar|e] eqn:Hload.
  - destruct (getPinnedRepos_loaded net username Hload)
      as (rs & Hrs & _ & Hall).
    destruct (getPinnedRepos_loaded net' username Hsame)
      as (rs' & Hrs' & _ & Hall').
    rewrite H in Hrs. injection Hrs as ->. clear H.
    exists rs'. split; [exact Hrs' | ].
    clear Hrs'. revert rs' Hall'.
    induction Hall as [|item r items rs Hr _ IH];
      intros rs' Hall'; inversion Hall' as [|? r' ? rs0 Hr' Hrest]; subst;
      [reflexivity | ].
    cbn [map]. rewrite (IH rs0 Hrest).
    f_equal.
    rewrite (pinnedItem_with_website net' net dollar username item Hr' Hr).
    reflexivity.
  - apply getPinnedRepos_rejected in Hload. rewrite H in Hload. discriminate.
Qed.

Lemma only_website_depends_on_repository_pages_witness :
  exists repos',
    @getPinnedRepos Example.toy_cheerio profile_only "octocat"
    = Return repos' /\
    map (fun r => with_website r None) repos'
    = map (fun r => with_website r None) Example.octocat_repos.
Proof.
  apply (@only_website_depends_on_repository_pages
           Example.toy_cheerio Example.toy_net profile_only "octocat").
  - reflexivity.
  - reflexivity.
Defined.

(* ================================================================== *)
(** * Further properties of the request handler *)
(* ================================================================== *)

Section HandlerBranches.

Context {cheerio : Cheerio}.

(** A request is passive, or it asks for a user name. *)
Lemma request_cases (request : Request) :
  is_passive request = true \/
  exists username refresh, asks_for request username refresh.
Proof.
  unfold is_passive, asks_for.
  destruct (String.eqb (method request) "OPTIONS"); [now left|].
  destruct (searchParams_get (searchParams request) "username") as [u|];
    [ | now left].
  destruct (String.eqb_spec u EmptyString) as [->|Hne]; [now left|].
  right. exists u. eexists. repeat split. exact Hne.
Qed.

Lemma handler_passive (net : Network) (c : Cache) (request : Request) :
  is_passive request = true ->
  handler net c request
  = (if String.eqb (method request) "OPTIONS"
     then mkHttpResponse 200 headers BodyNull
     else mkHttpResponse 200
            (headers ++ [("Content-Type", "text/html; charset=utf-8")])
            BodyInfoPage,
     c, None).
Proof.
  unfold is_passive, handler.
  destruct (String.eqb (method request) "OPTIONS"); [reflexivity|].
  destruct (searchParams_get (searchParams request) "username") as [u|];
    [ | reflexivity].
  simpl. intros ->. reflexivity.
Qed.

(** What [handler] returns for a request that asks for a user name. *)
Lemma handler_asks_for (net : Network) (c : Cache) (request : Request)
      (username : string) (refresh : bool) :
  asks_for request username refresh ->
  handler net c request
  = if (negb refresh && LRU.has c username)%bool
    then (json_response (LRU.lookup username (LRU.entries c)),
          snd (LRU.get c username),
          Some (mkRefresh username (getPinnedRepos net username)))
    else match getPinnedRepos net username with
         | Return result =>
             (json_response (Some result), LRU.set c username result, None)
         | Throw error => (error_response error, c, None)
         end.
Proof.
  intros Hreq.
  destruct (negb refresh && LRU.has c username)%bool eqn:E.
  - apply andb_prop in E as (Hr & Hhas).
    destruct refresh; [discriminate|].
    now apply handler_serves_cached.
  - apply (handler_fetches net c Hreq).
    destruct refresh; [now left | right]. exact E.
Qed.

End HandlerBranches.

(** X1.  Preflight requests and requests that name no user are answered
    with status 200 (an empty body for OPTIONS, the information page
    otherwise) whatever their other parameters are, and any number of
    them leaves the process as it was: the cache is not touched and no
    fetch is started. *)
Theorem passive_requests_change_nothing
        (cheerio : Cheerio) (s : Server) (reqs : list (Network * Request)) :
  Forall (fun nr => is_passive (snd nr) = true) reqs ->
  run s (map (fun nr => Incoming (fst nr) (snd nr)) reqs)
  = (s,
     map (fun nr =>
            if String.eqb (method (snd nr)) "OPTIONS"
            then mkHttpResponse 200 headers BodyNull
            else mkHttpResponse 200
                   (headers ++ [("Content-Type", "text/html; charset=utf-8")])
                   BodyInfoPage)
         reqs).
Proof.
  induction 1 as [|[net request] reqs Hp _ IH]; [reflexivity|].
  cbn [map run step fst snd]. simpl in Hp.
  rewrite (handler_passive net (cache s) request Hp).
  rewrite app_nil_r.
  replace (mkServer (cache s) (in_flight s)) with s by now destruct s.
  now rewrite IH.
Qed.

Lemma passive_requests_change_nothing_witness :
  @run Example.toy_cheerio Example.warm
       [Incoming Example.toy_net
          (mkRequest "OPTIONS" [("username", "octocat"); ("refresh", "true")]);
        Incoming Example.net_down (mkRequest "GET" [("refresh", "true")])]
  = (Example.warm,
     [mkHttpResponse 200 headers BodyNull;
      mkHttpResponse 200
        (headers ++ [("Content-Type", "text/html; charset=utf-8")])
        BodyInfoPage]).
Proof.
  apply (@passive_requests_change_nothing Example.toy_cheerio Example.warm
           [(Example.toy_net,
             mkRequest "OPTIONS" [("username", "octocat"); ("refresh", "true")]);
            (Example.net_down, mkRequest "GET" [("refresh", "true")])]).
  repeat constructor.
Defined.

(** X2.  Every response of [handler] starts with the five headers of
    lines 119-125 in that order; every response but the preflight one
    adds exactly a Content-Type after them.  The status is 200 or 500,
    and it is 500 exactly when the body is the error envelope, whose
    [error] text is then "Failed to fetch pinned repositories". *)
Theorem every_response_carries_the_headers
        (cheerio : Cheerio) (net : Network) (c : Cache) (request : Request) :
  let response := fst (fst (handler net c request)) in
  firstn 5 (http_headers response) = headers /\
  (http_status response = 200 \/ http_status response = 500) /\
  (http_status response = 500 <->
   exists details,
     http_body response
     = BodyError "Failed to fetch pinned repositories" details) /\
  (String.eqb (method request) "OPTIONS" = false ->
   exists content_type : string,
     http_headers response = (headers ++ [("Content-Type", content_type)])%list).
Proof.
  cbv zeta.
  destruct (request_cases request) as [Hp | (u & b & Hreq)].
  - rewrite (handler_passive net c request Hp).
    destruct (String.eqb (method request) "OPTIONS"); simpl;
      (split; [reflexivity | split; [now left | split]]).
    + split; [discriminate | intros (d & H); discriminate].
    + discriminate.
    + split; [discriminate | intros (d & H); discriminate].
    + intros _. eexists; reflexivity.
  - rewrite (handler_asks_for net c Hreq).
    destruct (negb b && LRU.has c u)%bool; simpl.
    + split; [reflexivity | split; [now left | split]].
      * split; [discriminate | intros (d & H); discriminate].
      * intros _. eexists; reflexivity.
    + destruct (getPinnedRepos net u) as [result|e]; simpl;
        (split; [reflexivity | split; [auto | split]]).
      * split; [discriminate | intros (d & H); discriminate].
      * intros _. eexists; reflexivity.
      * split; [intros _; eexists; reflexivity | reflexivity].
      * intros _. eexists; reflexivity.
Qed.

Lemma every_response_carries_the_headers_witness :
  exists content_type : string,
    http_headers
      (fst (fst (@handler Example.toy_cheerio Example.net_down cache0
                          (Example.GET "octocat" false))))
    = (headers ++ [("Content-Type", content_type)])%list.
Proof.
  apply (proj2 (proj2 (proj2 (every_response_carries_the_headers
                                Example.toy_cheerio Example.net_down cache0
                                (Example.GET "octocat" false))))).
  reflexivity.
Defined.

(** X3.  A response with status 500 is only given to a request that
    names a user whose profile page cannot be retrieved at that moment.
    Its details are always "Failed to load URL: https://github.com/"
    followed by the user name: the status code that [fetchWithTimeout]
    puts in its own error never reaches the client.  Nothing is kept of
    the failure: the process is left exactly as it was. *)
Theorem failures_are_reported_and_not_cached
        (cheerio : Cheerio) (s : Server) (net : Network) (request : Request) :
  http_status (fst (fst (handler net (cache s) request))) = 500 ->
  exists username refresh,
    asks_for request username refresh /\
    retrieved net (profile_url username) = None /\
    step s (Incoming net request)
    = (s,
       Some (mkHttpResponse 500
               (headers ++ [("Content-Type", "application/json")])
               (BodyError "Failed to fetch pinned repositories"
                          ("Failed to load URL: https://github.com/"
                           ++ username)))).
Proof.
  intros H500.
  destruct (request_cases request) as [Hp | (u & b & Hreq)].
  - rewrite (handler_passive net (cache s) request Hp) in H500.
    destruct (String.eqb (method request) "OPTIONS"); discriminate.
  - exists u, b. split; [exact Hreq | ].
    cbn [step]. rewrite (handler_asks_for net (cache s) Hreq) in *.
    destruct (negb b && LRU.has (cache s) u)%bool; [discriminate|].
    destruct (getPinnedRepos net u) as [result|e] eqn:Hfetch; [discriminate|].
    apply getPinnedRepos_rejected in Hfetch.
    pose proof (loadHTML_error _ _ Hfetch) as ->.
    rewrite loadHTML_retrieved in Hfetch.
    split; [now destruct (retrieved net (profile_url u)) | ].
    rewrite app_nil_r. now destruct s.
Qed.

Lemma failures_are_reported_and_not_cached_witness :
  exists username refresh,
    asks_for (Example.GET "ghost" false) username refresh /\
    @retrieved Example.toy_cheerio Example.toy_net (profile_url username)
    = None /\
    @step Example.toy_cheerio Example.warm
          (Incoming Example.toy_net (Example.GET "ghost" false))
    = (Example.warm,
       Some (mkHttpResponse 500
               (headers ++ [("Content-Type", "application/json")])
               (BodyError "Failed to fetch pinned repositories"
                          ("Failed to load URL: https://github.com/"
                           ++ username)))).
Proof.
  apply (@failures_are_reported_and_not_cached
           Example.toy_cheerio Example.warm Example.toy_net
           (Example.GET "ghost" false)).
  reflexivity.
Defined.

Section CacheContents.

Variable V : Type.
Implicit Types (c : LRU.t V) (k : string) (l : list (string * V)).

Lemma lookup_set_same c k (v : V) :
  0 < LRU.maxSize c -> LRU.lookup k (LRU.entries (LRU.set c k v)) = Some v.
Proof.
  intros Hpos. unfold LRU.set. cbn [LRU.entries].
  destruct (LRU.maxSize c) as [|n]; [lia|].
  simpl. now rewrite String.eqb_refl.
Qed.

Lemma lookup_Some_In k l (v : V) : LRU.lookup k l = Some v -> In (k, v) l.
Proof.
  induction l as [|[k' v'] l IH]; simpl; [discriminate|].
  destruct (String.eqb_spec k k') as [->|_].
  - intros H. injection H as ->. now left.
  - intros H. right. now apply IH.
Qed.

Lemma In_remove k l (kv : string * V) : In kv (LRU.remove k l) -> In kv l.
Proof.
  induction l as [|[k' v'] l IH]; simpl; [tauto|].
  destruct (String.eqb k k'); simpl; intuition.
Qed.

Lemma In_firstn {A : Type} (n : nat) (l : list A) (x : A) :
  In x (firstn n l) -> In x l.
Proof.
  intros H. rewrite <- (firstn_skipn n l). apply in_or_app. now left.
Qed.

Lemma In_entries_set c k (v : V) (kv : string * V) :
  In kv (LRU.entries (LRU.set c k v)) -> kv = (k, v) \/ In kv (LRU.entries c).
Proof.
  unfold LRU.set. cbn [LRU.entries]. intros H. apply In_firstn in H.
  destruct H as [<- | H]; [now left | right; now apply In_remove in H].
Qed.

Lemma In_entries_get c k (kv : string * V) :
  In kv (LRU.entries (snd (LRU.get c k))) -> In kv (LRU.entries c).
Proof.
  unfold LRU.get.
  destruct (LRU.lookup k (LRU.entries c)) as [v|] eqn:E; simpl; [ | tauto].
  intros [<- | H]; [now apply lookup_Some_In | now apply In_remove in H].
Qed.

Lemma maxSize_get c k : LRU.maxSize (snd (LRU.get c k)) = LRU.maxSize c.
Proof.
  unfold LRU.get. now destruct (LRU.lookup k (LRU.entries c)).
Qed.

End CacheContents.

Section ServerRuns.

Context {cheerio : Cheerio}.

Lemma getPinnedRepos_owned (net : Network) (username : string)
      (repos : list PinnedRepo) :
  getPinnedRepos net username = Return repos ->
  Forall (owned_by username) repos.
Proof.
  intros H.
  destruct (loadHTML net (profile_url username)) as [dollar|e] eqn:Hload.
  - destruct (getPinnedRepos_loaded net username Hload)
      as (repos' & H' & _ & Hall).
    rewrite H in H'. injection H' as ->. clear H.
    induction Hall as [|item r items rs Hr _ IH]; constructor; [ | exact IH].
    destruct (pinnedItem_fulfilled net dollar username item)
      as (r0 & w & Hr0 & _ & _ & Hown & Hlink & Himg).
    rewrite Hr in Hr0. injection Hr0 as <-.
    unfold owned_by. rewrite Hown in Hlink, Himg. auto.
  - apply getPinnedRepos_rejected in Hload. rewrite H in Hload. discriminate.
Qed.


(** Every cached list and every list a refresh in flight has fetched
    belongs to the user name it is filed under. *)
Lemma reachable_owned (s : Server) :
  reachable s ->
  (forall k v, In (k, v) (LRU.entries (cache s)) -> Forall (owned_by k) v) /\
  (forall r data,
      In r (in_flight s) -> refresh_outcome r = Return data ->
      Forall (owned_by (refresh_username r)) data).
Proof.
  induction 1 as [|s ev _ (IHc & IHf)].
  - split; [intros k v [] | intros r data []].
  - destruct ev as [net request | i].
    + destruct (request_cases request) as [Hp | (u & b & Hreq)].
      * cbn [step]. rewrite (handler_passive net (cache s) request Hp).
        simpl. rewrite app_nil_r. now split.
      * cbn [step]. rewrite (handler_asks_for net (cache s) Hreq).
        destruct (negb b && LRU.has (cache s) u)%bool.
        -- simpl. split.
           ++ intros k v Hin. apply IHc. now apply In_entries_get in Hin.
           ++ intros r data Hin Hr. apply in_app_or in Hin as [Hin | [<- | []]].
              ** now apply IHf.
              ** simpl in *. now apply getPinnedRepos_owned in Hr.
        -- destruct (getPinnedRepos net u) as [result|e] eqn:Hfetch; simpl;
             rewrite app_nil_r; [ | now split].
           split; [ | exact IHf].
           intros k v Hin. apply In_entries_set in Hin as [E | Hin].
           ++ injection E as -> ->. now apply getPinnedRepos_owned in Hfetch.
           ++ now apply IHc.
    + cbn [step]. destruct (nth_error (in_flight s) i) as [r|] eqn:Hi;
        simpl; [ | now split].
      split.
      * intros k v Hin. unfold settle in Hin.
        destruct (refresh_outcome r) as [data|e] eqn:Hr; [ | now apply IHc].
        apply In_entries_set in Hin as [E | Hin]; [ | now apply IHc].
        injection E as -> ->. apply (IHf r data); [ | exact Hr].
        now apply nth_error_In in Hi.
      * intros r' data Hin. apply IHf. unfold remove_nth in Hin.
        apply in_app_or in Hin as [Hin | Hin].
        -- now apply In_firstn in Hin.
        -- rewrite <- (firstn_skipn (S i) (in_flight s)).
           apply in_or_app. now right.
Qed.

End ServerRuns.



(** X6.  Whatever has happened before, a list that [handler] sends for
    a user name, fetched or taken from the cache, holds only records of
    that user: the owner is the user name, and the link and the image
    are the ones derived from the user name and the repository name. *)
Theorem responses_hold_records_of_the_user
        (cheerio : Cheerio) (s : Server) (net : Network) (request : Request)
        (username : string) (refresh : bool) (l : list PinnedRepo) :
  reachable s ->
  asks_for request username refresh ->
  http_body (fst (fst (handler net (cache s) request))) = BodyJson (Some l) ->
  Forall (owned_by username) l.
Proof.
  intros Hs Hreq. rewrite (handler_asks_for net (cache s) Hreq).
  destruct (reachable_owned Hs) as (Hc & _).
  destruct (negb refresh && LRU.has (cache s) username)%bool.
  - simpl. intros H. injection H as H.
    apply (Hc username l). now apply lookup_Some_In.
  - destruct (getPinnedRepos net username) as [result|e] eqn:Hfetch; simpl;
      intros H; [ | discriminate].
    injection H as <-. now apply getPinnedRepos_owned in Hfetch.
Qed.

Lemma responses_hold_records_of_the_user_witness :
  Forall (owned_by "octocat") Example.octocat_repos.
Proof.
  apply (@responses_hold_records_of_the_user
           Example.toy_cheerio Example.warm Example.net_down
           (Example.GET "octocat" false) "octocat" false).
  - unfold Example.warm. apply reachable_run. constructor.
  - solve_asks_for.
  - reflexivity.
Defined.

(* ================================================================== *)
(** * Further properties of the numeric normalizer *)
(* ================================================================== *)

Section NormalizedLemmas.

Lemma toLowerCase_char_facts (c : ascii) :
  JS.isWhiteSpace (JS.toLowerCase_char c) = JS.isWhiteSpace c /\
  JS.toLowerCase_char (JS.toLowerCase_char c) = JS.toLowerCase_char c.
Proof.
  destruct c as [b0 b1 b2 b3 b4 b5 b6 b7].
  destruct b0, b1, b2, b3, b4, b5, b6, b7; split; reflexivity.
Qed.

Lemma map_lower_trimStart (l : list ascii) :
  map JS.toLowerCase_char (JS.trimStart_list l)
  = JS.trimStart_list (map JS.toLowerCase_char l).
Proof.
  induction l as [|c l IH]; simpl; [reflexivity|].
  rewrite (proj1 (toLowerCase_char_facts c)).
  destruct (JS.isWhiteSpace c); [exact IH | reflexivity].
Qed.

Lemma map_lower_trim (l : list ascii) :
  map JS.toLowerCase_char (JS.trim_list l)
  = JS.trim_list (map JS.toLowerCase_char l).
Proof.
  unfold JS.trim_list, JS.trimEnd_list.
  now rewrite map_rev, map_lower_trimStart, map_rev, map_lower_trimStart.
Qed.

Lemma map_lower_idem (l : list ascii) :
  map JS.toLowerCase_char (map JS.toLowerCase_char l)
  = map JS.toLowerCase_char l.
Proof.
  rewrite map_map. apply map_ext. intros c.
  apply toLowerCase_char_facts.
Qed.

Lemma normalized_list (value : string) :
  list_ascii_of_string (normalized value)
  = JS.trim_list (map JS.toLowerCase_char (list_ascii_of_string value)).
Proof.
  unfold normalized, JS.trim, JS.toLowerCase.
  now rewrite !list_ascii_of_string_of_list_ascii.
Qed.

Lemma string_of_list_inj (s1 s2 : string) :
  list_ascii_of_string s1 = list_ascii_of_string s2 -> s1 = s2.
Proof.
  intros H. rewrite <- (string_of_list_ascii_of_string s1),
    <- (string_of_list_ascii_of_string s2). now rewrite H.
Qed.

Lemma normalized_idem (value : string) :
  normalized (normalized value) = normalized value.
Proof.
  apply string_of_list_inj. rewrite !normalized_list.
  now rewrite map_lower_trim, map_lower_idem, trim_list_idem.
Qed.

Lemma normalized_toLowerCase (value : string) :
  normalized (JS.toLowerCase value) = normalized value.
Proof.
  apply string_of_list_inj. rewrite !normalized_list.
  unfold JS.toLowerCase. rewrite list_ascii_of_string_of_list_ascii.
  now rewrite map_lower_idem.
Qed.

Lemma normalized_trim (value : string) :
  normalized (JS.trim value) = normalized value.
Proof.
  apply string_of_list_inj. rewrite !normalized_list.
  unfold JS.trim. rewrite list_ascii_of_string_of_list_ascii.
  now rewrite map_lower_trim, trim_list_idem.
Qed.

(** The result only depends on the normalized form, the empty text
    included. *)
Lemma parseNumericValue_normalized (value : string) :
  parseNumericValue value = parseNumericValue (normalized value).
Proof.
  unfold parseNumericValue at 2. fold (normalized (normalized value)).
  rewrite normalized_idem.
  unfold parseNumericValue. fold (normalized value).
  destruct (String.eqb_spec value EmptyString) as [->|_]; [reflexivity|].
  destruct (String.eqb_spec (normalized value) EmptyString) as [->|_];
    reflexivity.
Qed.

End NormalizedLemmas.

(** X10.  The normalizer does not tell upper case from lower case nor
    see white space around the text: lower-casing or trimming the
    argument beforehand changes nothing, and two texts with the same
    lower-cased, trimmed form get the same number.  This includes the
    texts made of white space only, which get 0 like the empty text. *)
Theorem parseNumericValue_ignores_case_and_padding :
  (forall value : string,
      parseNumericValue (JS.toLowerCase value) = parseNumericValue value /\
      parseNumericValue (JS.trim value) = parseNumericValue value) /\
  (forall v1 v2 : string,
      JS.trim (JS.toLowerCase v1) = JS.trim (JS.toLowerCase v2) ->
      parseNumericValue v1 = parseNumericValue v2) /\
  (forall value : string,
      JS.trim (JS.toLowerCase value) = EmptyString ->
      parseNumericValue value = JS.of_Z 0).
Proof.
  split; [ | split].
  - intros value. split.
    + rewrite (parseNumericValue_normalized (JS.toLowerCase value)),
        (parseNumericValue_normalized value).
      now rewrite normalized_toLowerCase.
    + rewrite (parseNumericValue_normalized (JS.trim value)),
        (parseNumericValue_normalized value).
      now rewrite normalized_trim.
  - intros v1 v2 H.
    rewrite (parseNumericValue_normalized v1),
      (parseNumericValue_normalized v2).
    unfold normalized. now rewrite H.
  - intros value H. rewrite (parseNumericValue_normalized value).
    unfold normalized. now rewrite H.
Qed.

Lemma parseNumericValue_ignores_case_and_padding_witness :
  parseNumericValue "  1.5K " = parseNumericValue "1.5k" /\
  parseNumericValue "   " = JS.of_Z 0.
Proof.
  destruct parseNumericValue_ignores_case_and_padding as (_ & Hsame & Hblank).
  split.
  - apply Hsame. vm_compute; reflexivity.
  - apply Hblank. vm_compute; reflexivity.
Defined.

Section LeadingDigits.

Local Open Scope Z_scope.

Lemma span_digits_prefix (ds rest : list ascii) :
  forallb (JS.is_digit 10) ds = true ->
  match rest with
  | c :: _ => JS.is_digit 10 c = false
  | [] => True
  end ->
  JS.span_digits 10 (ds ++ rest) = (ds, rest).
Proof.
  intros Hds Hrest. induction ds as [|d ds IH]; simpl.
  - destruct rest as [|c rest]; [reflexivity|]. simpl. now rewrite Hrest.
  - simpl in Hds. apply andb_prop in Hds as (Hd & Hds).
    now rewrite Hd, (IH Hds).
Qed.

(** [parseInt] reads a leading run of at most 15 decimal digits exactly
    and ignores what follows it. *)
Lemma parseInt_leading_digits (s : string) (ds rest : list ascii) :
  list_ascii_of_string s = (ds ++ rest)%list ->
  ds <> [] ->
  forallb (JS.is_digit 10) ds = true ->
  (List.length ds <= 15)%nat ->
  match rest with
  | c :: _ => JS.is_digit 10 c = false
  | [] => True
  end ->
  JS.to_Z (JS.lor (JS.parseInt s 10) (JS.of_Z 0))
  = Some (Z.of_N (JS.digits_value 10 ds)).
Proof.
  intros Hs Hne Hall Hlen Hrest. rewrite parseInt_10. cbv zeta. rewrite Hs.
  pose proof (digits_value_bound _ Hall) as Hbound.
  pose proof (span_digits_prefix ds rest Hall Hrest) as Hspan.
  destruct ds as [|c l]; [congruence|].
  pose proof Hall as Hall'. simpl in Hall'.
  apply andb_prop in Hall' as (Hc & _).
  destruct (decimal_digit_facts c Hc) as (Hws & Hplus & Hminus & _).
  cbn [app] in *. rewrite (@trimStart_list_head c (l ++ rest) Hws).
  unfold JS.strip_sign, JS.starts_with_minus. rewrite Hplus, Hminus.
  cbn [orb]. rewrite Hspan. cbn [fst].
  destruct (JS.digits_value 10 (c :: l)) as [|p]; [reflexivity|].
  assert (Hp : Z.pos p < 2 ^ 53).
  { assert (H15 : (10 ^ N.of_nat (List.length (c :: l)) <= 10 ^ 15)%N)
      by (apply N.pow_le_mono_r; lia).
    change (10 ^ 15)%N with 1000000000000000%N in H15.
    change (2 ^ 53) with 9007199254740992. lia. }
  destruct (of_Z_exact false Hp) as (Hz & Hb).
  simpl cond_Zopp in Hz, Hb. unfold JS.lor. simpl cond_Zopp.
  rewrite Hb. exact Hz.
Qed.

End LeadingDigits.

(** X11.  On a text whose lower-cased, trimmed form starts with a run of
    1 to 15 decimal digits and does not end in "k", the normalizer
    yields the number that run spells and ignores everything after it: a
    thousands separator, a decimal point or a unit cuts the number
    short. *)
Theorem parseNumericValue_reads_leading_digits
        (value : string) (ds rest : list ascii) :
  list_ascii_of_string (JS.trim (JS.toLowerCase value)) = (ds ++ rest)%list ->
  ds <> [] ->
  forallb (JS.is_digit 10) ds = true ->
  List.length ds <= 15 ->
  match rest with
  | c :: _ => JS.is_digit 10 c = false
  | [] => True
  end ->
  JS.endsWith (JS.trim (JS.toLowerCase value)) "k" = false ->
  JS.to_Z (parseNumericValue value) = Some (Z.of_N (JS.digits_value 10 ds)).
Proof.
  intros Hn Hne Hall Hlen Hrest Hk.
  assert (Hvalue : value <> EmptyString).
  { intros ->. destruct ds; [congruence | discriminate Hn]. }
  rewrite (parseNumericValue_integer_branch Hvalue Hk).
  exact (@parseInt_leading_digits _ ds rest Hn Hne Hall Hlen Hrest).
Qed.

Lemma parseNumericValue_reads_leading_digits_witness :
  JS.to_Z (parseNumericValue " 12,345 Stars") = Some 12%Z /\
  JS.to_Z (parseNumericValue "1.9") = Some 1%Z.
Proof.
  split.
  - apply (@parseNumericValue_reads_leading_digits " 12,345 Stars"
             (list_ascii_of_string "12") (list_ascii_of_string ",345 stars"));
      try reflexivity; [discriminate | simpl; lia].
  - apply (@parseNumericValue_reads_leading_digits "1.9"
             (list_ascii_of_string "1") (list_ascii_of_string ".9"));
      try reflexivity; [discriminate | simpl; lia].
Defined.

(* ================================================================== *)
(** * Exact thousands *)
(* ================================================================== *)

Section ExactProducts.

Local Open Scope Z_scope.

Lemma shr_1_double (Y : Z) :
  0 <= Y ->
  shr_1 (Build_shr_record (2 * Y) false false) = Build_shr_record Y false false.
Proof. destruct Y as [|q|q]; [reflexivity | reflexivity | lia]. Qed.

(** Shifting out zeros loses nothing. *)
Lemma iter_shr_1_exact (p : positive) (X : Z) :
  0 <= X ->
  iter_pos shr_1 p (Build_shr_record (X * 2 ^ Z.pos p) false false)
  = Build_shr_record X false false.
Proof.
  revert X. induction p as [p IH|p IH|]; intros X HX; cbn [iter_pos].
  - assert (Hpow : 0 < 2 ^ Z.pos p) by (apply Z.pow_pos_nonneg; lia).
    assert (H2 : 2 ^ Z.pos p~1 = 2 * (2 ^ Z.pos p * 2 ^ Z.pos p)).
    { replace (Z.pos p~1) with (Z.pos p + Z.pos p + 1) by lia.
      rewrite !Z.pow_add_r by lia. rewrite Z.pow_1_r. ring. }
    replace (X * 2 ^ Z.pos p~1) with (2 * (X * 2 ^ Z.pos p * 2 ^ Z.pos p))
      by (rewrite H2; ring).
    rewrite shr_1_double by nia. rewrite IH by nia. now apply IH.
  - assert (Hpow : 0 < 2 ^ Z.pos p) by (apply Z.pow_pos_nonneg; lia).
    assert (H2 : 2 ^ Z.pos p~0 = 2 ^ Z.pos p * 2 ^ Z.pos p).
    { replace (Z.pos p~0) with (Z.pos p + Z.pos p) by lia.
      now rewrite Z.pow_add_r by lia. }
    replace (X * 2 ^ Z.pos p~0) with (X * 2 ^ Z.pos p * 2 ^ Z.pos p)
      by (rewrite H2; ring).
    rewrite IH by nia. now apply IH.
  - rewrite Z.pow_1_r, Z.mul_comm. now apply shr_1_double.
Qed.

(** A mantissa that ends in enough zeros is rounded by dropping them. *)
Lemma binary_round_aux_shift (s : bool) (m' n : positive) (e : Z) :
  fexp JS.prec JS.emax (Z.pos (digits2_pos m') + Z.pos n + e) = e + Z.pos n ->
  e + Z.pos n <= JS.emax - JS.prec ->
  binary_round_aux JS.prec JS.emax s (Z.pos m' * 2 ^ Z.pos n) e loc_Exact
  = S754_finite s m' (e + Z.pos n).
Proof.
  intros Hfexp He. unfold binary_round_aux.
  assert (Hshr : shr_fexp JS.prec JS.emax (Z.pos m' * 2 ^ Z.pos n) e loc_Exact
                 = (Build_shr_record (Z.pos m') false false, e + Z.pos n)).
  { unfold shr_fexp. rewrite <- iter_xO_value. cbn [Zdigits2].
    rewrite iter_xO_digits, Pos2Z.inj_add, Hfexp.
    replace (e + Z.pos n - e) with (Z.pos n) by lia.
    cbn [shr shr_record_of_loc]. rewrite iter_xO_value.
    now rewrite iter_shr_1_exact by lia. }
  rewrite Hshr. cbn [loc_of_shr_record round_nearest_even shr_m].
  assert (Hshr2 : shr_fexp JS.prec JS.emax (Z.pos m') (e + Z.pos n) loc_Exact
                  = (Build_shr_record (Z.pos m') false false, e + Z.pos n)).
  { unfold shr_fexp. cbn [Zdigits2].
    replace (Z.pos (digits2_pos m') + (e + Z.pos n))
      with (Z.pos (digits2_pos m') + Z.pos n + e) by lia.
    rewrite Hfexp, Z.sub_diag. reflexivity. }
  rewrite Hshr2. cbn [shr_m].
  apply Z.leb_le in He. now rewrite He.
Qed.


Lemma digits2_pos_scaled (m P : positive) (k : Z) :
  0 <= k ->
  Z.pos m = Z.pos P * 2 ^ k ->
  Z.pos (digits2_pos m) = Z.pos (digits2_pos P) + k.
Proof.
  intros Hk Hm. destruct k as [|d|d]; [ | | lia].
  - rewrite Z.pow_0_r, Z.mul_1_r in Hm. injection Hm as ->. lia.
  - rewrite <- iter_xO_value in Hm. injection Hm as ->.
    rewrite iter_xO_digits. lia.
Qed.

Lemma to_Z_scaled (s : bool) (m : positive) (k P : Z) :
  0 <= k ->
  Z.pos m = P * 2 ^ k ->
  JS.to_Z (S754_finite s m (- k)) = Some (cond_Zopp s P).
Proof.
  intros Hk Hm. unfold JS.to_Z.
  assert (Hpow : 0 < 2 ^ k) by (apply Z.pow_pos_nonneg; lia).
  destruct (Z.leb_spec 0 (- k)) as [Hle|Hlt].
  - assert (k = 0) as -> by lia. simpl Z.opp.
    rewrite Z.pow_0_r, Z.mul_1_r in *. now rewrite Hm.
  - rewrite Z.opp_involutive, Hm.
    rewrite Z.mod_mul by lia. rewrite Z.eqb_refl.
    now rewrite Z.div_mul by lia.
Qed.

(** The Number value for an integer below 2^53 in absolute value, as
    mantissa and exponent. *)
Lemma of_Z_scaled (neg : bool) (p : positive) :
  Z.pos p < 2 ^ 53 ->
  exists (m : positive) (k : Z),
    JS.of_Z (cond_Zopp neg (Z.pos p)) = S754_finite neg m (- k) /\
    0 <= k /\ Z.pos m = Z.pos p * 2 ^ k.
Proof.
  intros Hp. rewrite of_Z_signed.
  pose proof (digits2_pos_small Hp) as Hd.
  pose proof (Pos2Z.is_pos (digits2_pos p)) as Hd0.
  unfold binary_round, shl_align.
  rewrite Z.add_0_r, Z.sub_0_r, fexp_binary64.
  destruct (Z.max (Z.pos (digits2_pos p) - 53) (-1074)) as [|q|d] eqn:E;
    [ | lia | ].
  - exists p, 0. rewrite binary_round_aux_exact.
    + repeat split; [lia | now rewrite Z.pow_0_r, Z.mul_1_r].
    + rewrite Z.add_0_r, fexp_binary64. lia.
    + unfold JS.emax, JS.prec. lia.
  - exists (Pos.iter xO p d), (Z.pos d). rewrite binary_round_aux_exact.
    + repeat split; [lia | apply iter_xO_value].
    + rewrite iter_xO_digits, fexp_binary64. lia.
    + unfold JS.emax, JS.prec. lia.
Qed.

(** The product of two numbers that denote integers is exact when the
    product of the integers is below 2^53. *)
Lemma mul_scaled (s1 s2 : bool) (m1 m2 p1 p2 : positive) (k1 k2 : Z) :
  0 <= k1 -> 0 <= k2 ->
  Z.pos m1 = Z.pos p1 * 2 ^ k1 ->
  Z.pos m2 = Z.pos p2 * 2 ^ k2 ->
  Z.pos (p1 * p2) < 2 ^ 53 ->
  exists (m : positive) (e : Z),
    JS.mul (S754_finite s1 m1 (- k1)) (S754_finite s2 m2 (- k2))
    = S754_finite (xorb s1 s2) m e /\
    Z.pos m < 2 ^ 53 /\
    JS.to_Z (S754_finite (xorb s1 s2) m e)
    = Some (cond_Zopp (xorb s1 s2) (Z.pos (p1 * p2))).
Proof.
  intros Hk1 Hk2 Hm1 Hm2 HP. unfold JS.mul, SFmul.
  set (P := (p1 * p2)%positive) in *. set (K := k1 + k2).
  assert (HM : Z.pos (m1 * m2) = Z.pos P * 2 ^ K).
  { unfold P, K. rewrite !Pos2Z.inj_mul, Hm1, Hm2, Z.pow_add_r by lia. ring. }
  pose proof (digits2_pos_small HP) as HD.
  pose proof (Pos2Z.is_pos (digits2_pos P)) as HD0.
  assert (HK : 0 <= K) by (unfold K; lia).
  pose proof (@digits2_pos_scaled (m1 * m2) P K HK HM) as HdM.
  replace (- k1 + - k2) with (- K) by (unfold K; lia).
  destruct (Z_le_gt_dec (Z.pos (digits2_pos P) - 53 + K) 0) as [Hn|Hn].
  - (* the product fits: nothing is shifted out *)
    exists (m1 * m2)%positive, (- K). rewrite binary_round_aux_exact.
    + split; [reflexivity | split].
      * pose proof (digits2_pos_upper (m1 * m2)) as Hup.
        assert (2 ^ Z.pos (digits2_pos (m1 * m2)) <= 2 ^ 53)
          by (apply Z.pow_le_mono_r; lia).
        lia.
      * now apply to_Z_scaled.
    + rewrite HdM, fexp_binary64. lia.
    + unfold JS.emax, JS.prec. lia.
  - (* the zeros at the end are shifted out *)
    set (j := 53 - Z.pos (digits2_pos P)).
    assert (Hj : 0 <= j) by (unfold j; lia).
    assert (Hpowj : 0 < 2 ^ j) by (apply Z.pow_pos_nonneg; lia).
    set (m' := Z.to_pos (Z.pos P * 2 ^ j)).
    assert (Hm' : Z.pos m' = Z.pos P * 2 ^ j)
      by (unfold m'; rewrite Z2Pos.id; [reflexivity | nia]).
    pose proof (@digits2_pos_scaled m' P j Hj Hm') as Hdm'.
    destruct (Z.pos (digits2_pos P) - 53 + K) as [|q|q] eqn:Eq; try lia.
    assert (HMq : Z.pos (m1 * m2) = Z.pos m' * 2 ^ Z.pos q).
    { rewrite HM, Hm', <- Z.mul_assoc, <- Z.pow_add_r by lia.
      f_equal. f_equal. unfold j. lia. }
    exists m', (- K + Z.pos q). rewrite HMq, binary_round_aux_shift.
    + split; [reflexivity | split].
      * pose proof (digits2_pos_upper m') as Hup.
        replace (Z.pos (digits2_pos m')) with 53 in Hup by (unfold j in *; lia).
        exact Hup.
      * replace (- K + Z.pos q) with (- j) by (unfold j; lia).
        now apply to_Z_scaled.
    + rewrite Hdm', fexp_binary64. unfold j. lia.
    + unfold JS.emax, JS.prec. lia.
Qed.

(** [Math.round] leaves the value of an integer as it is. *)
Lemma Math_round_integer (s : bool) (m : positive) (e z : Z) :
  Z.pos m < 2 ^ 53 ->
  JS.to_Z (S754_finite s m e) = Some z ->
  JS.to_Z (JS.Math_round (S754_finite s m e)) = Some z.
Proof.
  intros Hm Hz.
  destruct (Z_lt_ge_dec e 0) as [He|He].
  - destruct (Math_round_nearest s Hm He) as (z' & Hz' & Hlo & Hhi).
    rewrite Hz'. f_equal.
    unfold JS.to_Z in Hz. destruct (Z.leb_spec 0 e) as [Hle|_]; [lia|].
    assert (Hpow : 0 < 2 ^ (- e)) by (apply Z.pow_pos_nonneg; lia).
    destruct (Z.eqb_spec (Z.pos m mod 2 ^ (- e)) 0) as [Hmod|_];
      [ | discriminate].
    injection Hz as <-.
    pose proof (Z.div_mod (Z.pos m) (2 ^ (- e))) as Hdiv.
    rewrite Hmod, Z.add_0_r in Hdiv. specialize (Hdiv ltac:(lia)).
    set (q := Z.pos m / 2 ^ (- e)) in *. set (D := 2 ^ (- e)) in *.
    destruct s; simpl cond_Zopp in *; nia.
  - unfold JS.Math_round. destruct (Z.leb_spec 0 e); [exact Hz | lia].
Qed.

End ExactProducts.

Section ThousandsLemmas.

Local Open Scope Z_scope.

Lemma decimal_digit_plain (c : ascii) :
  JS.is_digit 10 c = true ->
  JS.toLowerCase_char c = c /\ Ascii.eqb "I" c = false.
Proof.
  destruct c as [b0 b1 b2 b3 b4 b5 b6 b7].
  destruct b0, b1, b2, b3, b4, b5, b6, b7; intros H;
    try discriminate H; split; reflexivity.
Qed.

Lemma toLowerCase_digits (s : string) :
  forallb (JS.is_digit 10) (list_ascii_of_string s) = true ->
  JS.toLowerCase s = s.
Proof.
  intros H. unfold JS.toLowerCase.
  rewrite <- (string_of_list_ascii_of_string s) at 2. f_equal.
  induction (list_ascii_of_string s) as [|c l IH]; [reflexivity|].
  simpl in H. apply andb_prop in H as (Hc & Hl). simpl.
  now rewrite (proj1 (decimal_digit_plain c Hc)), (IH Hl).
Qed.

(** [parseFloat] of a run of decimal digits is the Number value for the
    integer the run spells. *)
Lemma parseFloat_digits (s : string) :
  let ds := list_ascii_of_string s in
  ds <> [] ->
  forallb (JS.is_digit 10) ds = true ->
  JS.parseFloat s = JS.of_Z (Z.of_N (JS.digits_value 10 ds)).
Proof.
  cbv zeta. intros Hne Hall. unfold JS.parseFloat.
  pose proof (span_digits_all _ Hall) as Hspan.
  destruct (list_ascii_of_string s) as [|c l]; [congruence|].
  pose proof Hall as Hall'. simpl in Hall'.
  apply andb_prop in Hall' as (Hc & _).
  destruct (decimal_digit_facts c Hc) as (Hws & Hplus & Hminus & _).
  destruct (decimal_digit_plain c Hc) as (_ & HI).
  rewrite (@trimStart_list_head c l Hws).
  unfold JS.strip_sign, JS.starts_with_minus. rewrite Hplus, Hminus.
  cbn [orb]. cbn [list_ascii_of_string JS.is_prefix]. rewrite HI.
  cbn [andb]. rewrite Hspan. cbv iota beta. rewrite app_nil_r.
  cbn [JS.exponent_part List.length Z.of_nat Z.sub Z.opp].
  unfold JS.of_decimal.
  destruct (JS.digits_value 10 (c :: l)) as [|q]; [reflexivity|].
  cbn [Z.leb Z.compare cond_Zopp Z.of_N].
  now rewrite Z.pow_0_r, Z.mul_1_r.
Qed.

End ThousandsLemmas.

(** X12.  A run of 1 to 12 decimal digits followed by "k" or "K" yields
    exactly a thousand times the number the digits spell: the product
    and the rounding lose nothing. *)
Theorem parseNumericValue_reads_thousands (p : string) (c : ascii) :
  c = "k"%char \/ c = "K"%char ->
  list_ascii_of_string p <> [] ->
  forallb (JS.is_digit 10) (list_ascii_of_string p) = true ->
  List.length (list_ascii_of_string p) <= 12 ->
  JS.to_Z (parseNumericValue (p ++ String c EmptyString))
  = Some (1000 * Z.of_N (JS.digits_value 10 (list_ascii_of_string p)))%Z.
Proof.
  intros Hc Hne Hall Hlen.
  rewrite (parseNumericValue_snoc_k p Hc), (toLowerCase_digits p Hall).
  rewrite (parseFloat_digits p Hne Hall).
  pose proof (digits_value_bound _ Hall) as Hbound.
  destruct (JS.digits_value 10 (list_ascii_of_string p)) as [|q];
    [vm_compute; reflexivity | ].
  assert (H12 : (10 ^ N.of_nat (List.length (list_ascii_of_string p))
                 <= 10 ^ 12)%N) by (apply N.pow_le_mono_r; lia).
  change (10 ^ 12)%N with 1000000000000%N in H12.
  assert (Hq : (Z.pos q < 1000000000000)%Z) by lia.
  cbn [Z.of_N].
  destruct (@of_Z_scaled false q) as (m1 & k1 & E1 & Hk1 & Hm1).
  { change (2 ^ 53)%Z with 9007199254740992%Z. lia. }
  destruct (@of_Z_scaled false 1000) as (m2 & k2 & E2 & Hk2 & Hm2);
    [reflexivity | ].
  cbn [cond_Zopp] in E1, E2. rewrite E1, E2.
  destruct (@mul_scaled false false m1 m2 q 1000 k1 k2 Hk1 Hk2 Hm1 Hm2)
    as (m & e & Emul & Hm & Hz).
  { change (2 ^ 53)%Z with 9007199254740992%Z. lia. }
  rewrite Emul. cbn [xorb] in *. rewrite (@Math_round_integer _ _ _ _ Hm Hz).
  cbn [cond_Zopp]. f_equal. lia.
Qed.

Lemma parseNumericValue_reads_thousands_witness :
  JS.to_Z (parseNumericValue "37K") = Some 37000%Z.
Proof.
  apply (@parseNumericValue_reads_thousands "37" "K"%char).
  - now right.
  - discriminate.
  - reflexivity.
  - simpl. lia.
Defined.

(* ================================================================== *)
(** * Properties of the port (index.ts, line 185) *)
(* ================================================================== *)

Section PortLemmas.

Local Open Scope Z_scope.

Lemma decimal_digit_not_x (c : ascii) :
  JS.is_digit 10 c = true ->
  Ascii.eqb c "x" = false /\ Ascii.eqb c "X" = false.
Proof.
  destruct c as [b0 b1 b2 b3 b4 b5 b6 b7].
  destruct b0, b1, b2, b3, b4, b5, b6, b7; intros H;
    try discriminate H; split; reflexivity.
Qed.

(** [parseInt] without a radix reads a run of decimal digits in base 10. *)
Lemma parseInt_0_digits (s : string) :
  let ds := list_ascii_of_string s in
  ds <> [] ->
  forallb (JS.is_digit 10) ds = true ->
  (List.length ds <= 15)%nat ->
  JS.parseInt s 0 = JS.of_Z (Z.of_N (JS.digits_value 10 ds)) /\
  JS.to_Z (JS.parseInt s 0) = Some (Z.of_N (JS.digits_value 10 ds)).
Proof.
  cbv zeta. intros Hne Hall Hlen. unfold JS.parseInt.
  change (JS.ToInt32 0) with 0. change (0 =? 0) with true.
  cbv beta iota zeta delta [orb andb].
  pose proof (digits_value_bound _ Hall) as Hbound.
  pose proof (span_digits_all _ Hall) as Hspan.
  destruct (list_ascii_of_string s) as [|c l]; [congruence|].
  pose proof Hall as Hall'. simpl in Hall'.
  apply andb_prop in Hall' as (Hc & Hl).
  destruct (decimal_digit_facts c Hc) as (Hws & Hplus & Hminus & _).
  rewrite (@trimStart_list_head c l Hws).
  unfold JS.strip_sign, JS.starts_with_minus. rewrite Hplus, Hminus.
  cbn [orb].
  assert (Hhex : JS.strip_hex_prefix (c :: l) = None).
  { unfold JS.strip_hex_prefix. destruct l as [|x l]; [reflexivity|].
    simpl in Hl. apply andb_prop in Hl as (Hx & _).
    destruct (decimal_digit_not_x x Hx) as (-> & ->).
    now rewrite andb_false_r. }
  rewrite Hhex. change (Z.to_N 10) with 10%N. rewrite Hspan.
  destruct (JS.digits_value 10 (c :: l)) as [|p]; [split; reflexivity|].
  split; [reflexivity | ].
  assert (Hp : Z.pos p < 2 ^ 53).
  { assert (H15 : (10 ^ N.of_nat (List.length (c :: l)) <= 10 ^ 15)%N)
      by (apply N.pow_le_mono_r; lia).
    change (10 ^ 15)%N with 1000000000000000%N in H15.
    change (2 ^ 53) with 9007199254740992. lia. }
  exact (proj1 (of_Z_exact false Hp)).
Qed.

End PortLemmas.

(** X13.  The port is 80 when the variable PORT is unset or empty, and
    the number PORT spells when it is a run of 1 to 15 decimal digits. *)
Theorem port_default_and_digits :
  port None = JS.of_Z 80 /\
  port (Some EmptyString) = JS.of_Z 80 /\
  (forall p : string,
      list_ascii_of_string p <> [] ->
      forallb (JS.is_digit 10) (list_ascii_of_string p) = true ->
      List.length (list_ascii_of_string p) <= 15 ->
      port (Some p)
      = JS.of_Z (Z.of_N (JS.digits_value 10 (list_ascii_of_string p))) /\
      JS.to_Z (port (Some p))
      = Some (Z.of_N (JS.digits_value 10 (list_ascii_of_string p)))).
Proof.
  split; [vm_compute; reflexivity | split; [vm_compute; reflexivity | ]].
  intros p Hne Hall Hlen. unfold port.
  destruct (String.eqb_spec p EmptyString) as [->|_]; [now elim Hne|].
  now apply parseInt_0_digits.
Qed.

Lemma port_default_and_digits_witness :
  JS.to_Z (port (Some "8080")) = Some 8080%Z.
Proof.
  destruct (proj2 (proj2 port_default_and_digits) "8080") as (_ & H).
  - discriminate.
  - reflexivity.
  - simpl. lia.
  - exact H.
Defined.

(* ================================================================== *)
(** * Properties of the page loader (index.ts, lines 22-51) *)
(* ================================================================== *)

(** X14.  [fetchWithTimeout] only ever returns a response whose [ok]
    flag is set: a response without it becomes the error "HTTP error!
    status: " followed by the status code, and a rejection of the fetch
    is passed on as it is.  [loadHTML] returns a document exactly when
    the fetch gives an ok response whose body can be read and loaded;
    in every other case it throws "Failed to load URL: " followed by the
    URL, whatever the error underneath was. *)
Theorem loadHTML_returns_or_hides_the_cause
        (cheerio : Cheerio) (net : Network) (url : string) :
  (forall response : Response,
      fetchWithTimeout net url = Return response ->
      ok response = true /\ net url = Return response) /\
  (forall response : Response,
      net url = Return response ->
      ok response = false ->
      fetchWithTimeout net url
      = Throw (MkError ("HTTP error! status: "
                        ++ string_of_nat (status response)))) /\
  (forall e : Error,
      net url = Throw e -> fetchWithTimeout net url = Throw e) /\
  (forall dollar : Doc,
      loadHTML net url = Return dollar <->
      exists (response : Response) (html : string),
        net url = Return response /\
        ok response = true /\
        text response = Return html /\
        load html = Return dollar) /\
  (forall e : Error,
      loadHTML net url = Throw e ->
      e = MkError ("Failed to load URL: " ++ url)).
Proof.
  split; [ | split; [ | split; [ | split]]].
  - intros response. unfold fetchWithTimeout.
    destruct (net url) as [r|e]; simpl; [ | discriminate].
    destruct (ok r) eqn:Hok; simpl; [ | discriminate].
    intros H. injection H as <-. now split.
  - intros response Hnet Hok. unfold fetchWithTimeout.
    rewrite Hnet. simpl. now rewrite Hok.
  - intros e Hnet. unfold fetchWithTimeout. now rewrite Hnet.
  - intros dollar. rewrite loadHTML_retrieved. unfold retrieved. split.
    + destruct (net url) as [r|e]; [ | discriminate].
      destruct (ok r) eqn:Hok; [ | discriminate].
      destruct (text r) as [html|e] eqn:Htext; [ | discriminate].
      destruct (load html) as [d|e] eqn:Hload; [ | discriminate].
      intros H. injection H as <-. exists r, html. auto.
    + intros (r & html & -> & -> & -> & ->). reflexivity.
  - intros e. apply loadHTML_error.
Qed.

Lemma loadHTML_returns_or_hides_the_cause_witness :
  @loadHTML Example.toy_cheerio Example.toy_net
            "https://github.com/octocat/hello"
  = Return Example.repo_doc /\
  @fetchWithTimeout
     (fun _ => Return (mkResponse false 404 (Return "Not Found")))
     "https://github.com/ghost"
  = Throw (MkError "HTTP error! status: 404").
Proof.
  split.
  - apply (proj1 (proj2 (proj2 (proj2
             (loadHTML_returns_or_hides_the_cause
                Example.toy_cheerio Example.toy_net
                "https://github.com/octocat/hello"))))).
    exists (mkResponse true 200 (Return "<repo>")), "<repo>".
    repeat split.
  - apply (proj1 (proj2
             (loadHTML_returns_or_hides_the_cause
                Example.toy_cheerio
                (fun _ => Return (mkResponse false 404 (Return "Not Found")))
                "https://github.com/ghost"))
             (mkResponse false 404 (Return "Not Found"))); reflexivity.
Defined.

(* ================================================================== *)
(** * Properties of the handler with its suspension *)
(* ================================================================== *)

Section LookupThroughGet.

Variable V : Type.

Lemma lookup_remove_other (k k' : string) (l : list (string * V)) :
  k' <> k -> LRU.lookup k' (LRU.remove k l) = LRU.lookup k' l.
Proof.
  intros Hne. induction l as [|[k0 v0] l IH]; simpl; [reflexivity|].
  destruct (String.eqb_spec k k0) as [->|Hk].
  - destruct (String.eqb_spec k' k0) as [E|_]; [contradiction | exact IH].
  - simpl. now rewrite IH.
Qed.

(** Reading an entry changes no value. *)
Lemma lookup_get (c : LRU.t V) (k k' : string) :
  LRU.lookup k' (LRU.entries (snd (LRU.get c k)))
  = LRU.lookup k' (LRU.entries c).
Proof.
  unfold LRU.get.
  destruct (LRU.lookup k (LRU.entries c)) as [v|] eqn:E; [ | reflexivity].
  simpl. destruct (String.eqb_spec k' k) as [->|Hne]; [now rewrite E|].
  now apply lookup_remove_other.
Qed.

End LookupThroughGet.

Section SuspensionLemmas.

Context {cheerio : Cheerio}.

(** [handler] is its beginning followed at once by its resumption. *)
Lemma handler_begin_resume (net : Network) (c : Cache) (request : Request) :
  handler net c request
  = match handler_begin net c request with
    | Returned response cache1 started => (response, cache1, started)
    | Suspended username fetching =>
        let '(response, cache1) := handler_resume c username fetching in
        (response, cache1, None)
    end.
Proof.
  unfold handler, handler_begin, handler_resume.
  destruct (String.eqb (method request) "OPTIONS"); [reflexivity|].
  destruct (searchParams_get (searchParams request) "username") as [u|];
    [ | reflexivity].
  destruct (String.eqb u EmptyString); [reflexivity|].
  destruct (negb _ && LRU.has c u)%bool.
  - now destruct (LRU.get c u).
  - now destruct (getPinnedRepos net u).
Qed.

Lemma handler_begin_asks_for (net : Network) (c : Cache) (request : Request)
      (username : string) (refresh : bool) :
  asks_for request username refresh ->
  handler_begin net c request
  = if (negb refresh && LRU.has c username)%bool
    then Returned (json_response (LRU.lookup username (LRU.entries c)))
                  (snd (LRU.get c username))
                  (Some (mkRefresh username (getPinnedRepos net username)))
    else Suspended username (getPinnedRepos net username).
Proof.
  intros (Hm & Hu & Hne & Hr). unfold handler_begin.
  rewrite Hm, Hu, Hr.
  destruct (String.eqb_spec username EmptyString) as [E|_]; [contradiction|].
  destruct (negb refresh && LRU.has c username)%bool; [ | reflexivity].
  rewrite <- LRUFacts.get_lookup.
  now destruct (LRU.get c username).
Qed.

(** A request that arrives writes no value of the cache. *)
Lemma arrival_keeps_values (s : Loop) (net : Network) (request : Request)
      (k : string) :
  LRU.lookup k (LRU.entries (loop_cache (fst (tick s (Arrives net request)))))
  = LRU.lookup k (LRU.entries (loop_cache s)).
Proof.
  cbn [tick]. unfold handler_begin.
  destruct (String.eqb (method request) "OPTIONS"); [reflexivity|].
  destruct (searchParams_get (searchParams request) "username") as [u|];
    [ | reflexivity].
  destruct (String.eqb u EmptyString); [reflexivity|].
  destruct (negb _ && LRU.has (loop_cache s) u)%bool; [ | reflexivity].
  pose proof (lookup_get (loop_cache s) u k) as H.
  destruct (LRU.get (loop_cache s) u) as [result cache1]. exact H.
Qed.

Lemma arrivals_keep_values (s : Loop) (ts : list Tick) (k : string) :
  Forall is_arrival ts ->
  LRU.lookup k (LRU.entries (loop_cache (fst (ticks s ts))))
  = LRU.lookup k (LRU.entries (loop_cache s)).
Proof.
  intros Hall. revert s.
  induction Hall as [|t ts Ht _ IH]; intros s; [reflexivity|].
  destruct t as [net request | i | i]; try contradiction.
  cbn [ticks].
  pose proof (arrival_keeps_values s net request k) as H1.
  destruct (tick s (Arrives net request)) as [s1 out].
  pose proof (IH s1) as H2.
  destruct (ticks s1 ts) as [s2 outs]. cbn [fst] in *. congruence.
Qed.

Lemma ticks_app (s : Loop) (ts1 ts2 : list Tick) :
  ticks s (ts1 ++ ts2)
  = let '(s1, outs1) := ticks s ts1 in
    let '(s2, outs2) := ticks s1 ts2 in
    (s2, (outs1 ++ outs2)%list).
Proof.
  revert s. induction ts1 as [|t ts1 IH]; intros s; cbn [app ticks].
  - now destruct (ticks s ts2).
  - destruct (tick s t) as [s1 out]. rewrite IH.
    destruct (ticks s1 ts1) as [s2 outs1].
    destruct (ticks s2 ts2) as [s3 outs2]. now destruct out.
Qed.

(** The capacity never changes. *)
Lemma running_maxSize (s : Loop) :
  running s -> LRU.maxSize (loop_cache s) = 500.
Proof.
  induction 1 as [|s t _ IH]; [reflexivity|].
  destruct t as [net request | i | i]; cbn [tick].
  - unfold handler_begin.
    destruct (String.eqb (method request) "OPTIONS"); [exact IH|].
    destruct (searchParams_get (searchParams request) "username") as [u|];
      [ | exact IH].
    destruct (String.eqb u EmptyString); [exact IH|].
    destruct (negb _ && LRU.has (loop_cache s) u)%bool; [ | exact IH].
    pose proof (maxSize_get (loop_cache s) u) as H.
    destruct (LRU.get (loop_cache s) u) as [result cache1].
    cbn [fst loop_cache snd] in *. congruence.
  - destruct (nth_error (awaiting s) i) as [r|]; [ | exact IH].
    unfold handler_resume. destruct (refresh_outcome r); exact IH.
  - destruct (nth_error (refreshing s) i) as [r|]; [ | exact IH].
    cbn [fst loop_cache]. unfold settle.
    destruct (refresh_outcome r); exact IH.
Qed.

Lemma running_ticks (s : Loop) (ts : list Tick) :
  running s -> running (fst (ticks s ts)).
Proof.
  revert s. induction ts as [|t ts IH]; intros s Hs; [exact Hs|].
  cbn [ticks]. pose proof (running_tick t Hs) as H1.
  destruct (tick s t) as [s1 out]. specialize (IH s1 H1).
  destruct (ticks s1 ts) as [s2 outs]. exact IH.
Qed.

End SuspensionLemmas.

(** X4.  A request that makes [handler] fetch (a forced refresh, or no
    entry for the user name) is suspended until the fetch settles and
    writes nothing before; a second request for the same user name that
    arrives meanwhile finds no entry and fetches too.  When a suspended
    call resumes with a fetched list, it sends that list and stores it,
    and from then on, as long as requests only arrive and no other fetch
    settles, a request for that user name without refresh is answered
    with the same list, whatever the network does. *)
Theorem fetched_list_is_served_from_cache (cheerio : Cheerio) (s : Loop) :
  running s ->
  (forall (net : Network) (request : Request) (username : string)
          (refresh : bool),
      asks_for request username refresh ->
      refresh = true \/ LRU.has (loop_cache s) username = false ->
      tick s (Arrives net request)
      = (mkLoop (loop_cache s)
           (awaiting s ++ [mkRefresh username (getPinnedRepos net username)])
           (refreshing s),
         None)) /\
  (forall (net net' : Network) (request request' : Request)
          (username : string) (refresh refresh' : bool),
      asks_for request username refresh ->
      asks_for request' username refresh' ->
      LRU.has (loop_cache s) username = false ->
      ticks s [Arrives net request; Arrives net' request']
      = (mkLoop (loop_cache s)
           (awaiting s
              ++ [mkRefresh username (getPinnedRepos net username);
                  mkRefresh username (getPinnedRepos net' username)])
           (refreshing s),
         [])) /\
  (forall (i : nat) (username : string) (result : list PinnedRepo)
          (arrivals : list Tick) (net' : Network) (request' : Request),
      nth_error (awaiting s) i = Some (mkRefresh username (Return result)) ->
      Forall is_arrival arrivals ->
      asks_for request' username false ->
      snd (tick s (Resumes i)) = Some (json_response (Some result)) /\
      LRU.lookup username
        (LRU.entries (loop_cache (fst (ticks s (Resumes i :: arrivals)))))
      = Some result /\
      snd (tick (fst (ticks s (Resumes i :: arrivals)))
                (Arrives net' request'))
      = Some (json_response (Some result))).
Proof.
  intros Hs. pose proof (running_maxSize Hs) as Hmax.
  assert (Hsuspend :
            forall net request username refresh,
              asks_for request username refresh ->
              refresh = true \/ LRU.has (loop_cache s) username = false ->
              tick s (Arrives net request)
              = (mkLoop (loop_cache s)
                   (awaiting s
                      ++ [mkRefresh username (getPinnedRepos net username)])
                   (refreshing s),
                 None)).
  { intros net request username refresh Hreq Hcase. cbn [tick].
    rewrite (handler_begin_asks_for net (loop_cache s) Hreq).
    assert (Hcond : (negb refresh && LRU.has (loop_cache s) username)%bool
                    = false).
    { destruct Hcase as [-> | ->]; [reflexivity | apply andb_false_r]. }
    now rewrite Hcond. }
  split; [exact Hsuspend | split].
  - intros net net' request request' username refresh refresh'
           Hreq Hreq' Hhas.
    cbn [ticks]. rewrite (Hsuspend net request username refresh Hreq
                            (or_intror Hhas)).
    cbn [tick loop_cache].
    rewrite (handler_begin_asks_for net' (loop_cache s) Hreq'), Hhas.
    rewrite andb_false_r. cbn [awaiting refreshing].
    now rewrite <- app_assoc.
  - intros i username result arrivals net' request' Hi Harr Hreq'.
    assert (Hresume :
              tick s (Resumes i)
              = (mkLoop (LRU.set (loop_cache s) username result)
                        (remove_nth i (awaiting s)) (refreshing s),
                 Some (json_response (Some result)))).
    { cbn [tick]. rewrite Hi. reflexivity. }
    split; [now rewrite Hresume | ].
    assert (Hlookup :
              LRU.lookup username
                (LRU.entries
                   (loop_cache (fst (ticks s (Resumes i :: arrivals)))))
              = Some result).
    { cbn [ticks]. rewrite Hresume.
      pose proof (arrivals_keep_values
                    (mkLoop (LRU.set (loop_cache s) username result)
                            (remove_nth i (awaiting s)) (refreshing s))
                    username Harr) as Hkeep.
      destruct (ticks _ arrivals) as [s2 outs]. cbn [fst] in *.
      rewrite Hkeep. cbn [loop_cache].
      apply lookup_set_same. rewrite Hmax. lia. }
    split; [exact Hlookup | ].
    cbn [tick].
    rewrite (handler_begin_asks_for net' _ Hreq').
    assert (Hhas : LRU.has
                     (loop_cache (fst (ticks s (Resumes i :: arrivals))))
                     username = true)
      by (apply LRUFacts.has_lookup; eauto).
    rewrite Hhas. cbn [negb andb fst snd]. now rewrite Hlookup.
Qed.

Lemma fetched_list_is_served_from_cache_witness :
  snd (@tick Example.toy_cheerio
         (fst (@ticks Example.toy_cheerio octocat_awaited
                 [Resumes 0;
                  Arrives Example.net_down (Example.GET "ghost" false);
                  Arrives Example.net_down (Example.GET "octocat" false)]))
         (Arrives Example.net_down (Example.GET "octocat" false)))
  = Some (json_response (Some Example.octocat_repos)).
Proof.
  apply (proj2 (proj2 (@fetched_list_is_served_from_cache
                         Example.toy_cheerio octocat_awaited
                         (running_ticks _ (@running_start Example.toy_cheerio))))
           0 "octocat" Example.octocat_repos
           [Arrives Example.net_down (Example.GET "ghost" false);
            Arrives Example.net_down (Example.GET "octocat" false)]
           Example.net_down (Example.GET "octocat" false)).
  - reflexivity.
  - repeat constructor.
  - solve_asks_for.
Defined.

(* ================================================================== *)
(** * Recency of use *)
(* ================================================================== *)

Section RecencyLemmas.

Variable V : Type.
Implicit Types (c : LRU.t V) (k : string) (l : list (string * V)).




End RecencyLemmas.

Section RecencyOfHits.

Context {cheerio : Cheerio}.


End RecencyOfHits.


